(** * Beeftext: the combo table frame and the preferences manager

    A shallow embedding of [src/Combo/ComboTableFrame.cpp] and
    [src/PreferencesManager.cpp].

    Conventions.
    - [qint32] values are modelled as [Z]; the code only compares them, it
      performs no arithmetic on them, so no wrap-around appears.
    - [SPCombo] (a shared pointer to a [Combo]) is a handle into an explicit
      heap, so that a write through one copy of the pointer is seen through
      every other copy.
    - A slot returns [option]: [None] stands for a failed [Q_ASSERT] or an
      access the collaborating classes do not define (index out of range,
      handle without a record).
    - What the Qt widgets, the dialogs and the save operation answer is an
      input of each slot, gathered in the record [Env]; what a slot shows or
      calls is appended to the [events] of the state. *)

From Stdlib Require Import Ascii.
From stdpp Require Import gmap strings list fin_maps sorting.

Open Scope Z_scope.

(** ** Combos and the combo list *)

Module ComboModel.

(** Modelled from the spec: the class [Combo] is not part of the sources at
    hand. The spec describes a combo record as "an entity with at least an
    identifier, trigger text, and substitution content". *)
Record Combo := mkCombo {
  uuid : string;
  comboText : string;
  substitutionText : string
}.

(** [SPCombo] is [std::shared_ptr<Combo>]: a handle. *)
Abbreviation SPCombo := nat (only parsing).

(** Modelled from the spec: the class [ComboList] is not part of the sources
    at hand. The spec describes it as "an ordered sequence of combo records,
    index-addressable" that exposes [append], [erase(index)], [size],
    [markComboAsEdited(index)] and "indexed element access returning a shared
    handle to a combo record". *)
Abbreviation ComboList := (list SPCombo) (only parsing).

(** Modelled from the spec: [ComboList::size]. *)
Definition size (comboList : ComboList) : Z := Z.of_nat (length comboList).

(** Modelled from the spec: [ComboList::operator[]], undefined out of range. *)
Definition at_index (comboList : ComboList) (index : Z) : option SPCombo :=
  if bool_decide (0 ≤ index < size comboList)
  then comboList !! Z.to_nat index
  else None.

(** Modelled from the spec: [ComboList::append]. *)
Definition append (combo : SPCombo) (comboList : ComboList) : ComboList :=
  comboList ++ [combo].

(** Modelled from the spec: [ComboList::erase(index)] removes the entry at
    [index]; the entries behind it shift down by one. Out of range it is
    undefined. *)
Definition erase (index : Z) (comboList : ComboList) : option ComboList :=
  if bool_decide (0 ≤ index < size comboList)
  then Some (delete (Z.to_nat index) comboList)
  else None.

End ComboModel.

(** ** [std::sort] and [QList] *)

Module Std.

(** [std::sort(first, last, comp)] on a [QList<qint32>]: the result is the
    rearrangement of the input that is ordered by [comp]. It is modelled by
    insertion from the right; on integers every sorting algorithm returns the
    same list. *)
Fixpoint sort_insert (comp : Z → Z → bool) (x : Z) (l : list Z) : list Z :=
  match l with
  | [] => [x]
  | y :: l' => if comp y x then y :: sort_insert comp x l' else x :: y :: l'
  end.

Fixpoint sort (comp : Z → Z → bool) (l : list Z) : list Z :=
  match l with
  | [] => []
  | x :: l' => sort_insert comp x (sort comp l')
  end.

End Std.

(** ** The table frame *)

Module ComboTableFrame.
Import ComboModel.

(** [QDialog::DialogCode]. *)
Inductive DialogCode := Rejected | Accepted.

(** [QMessageBox::StandardButton], the two buttons the question offers. *)
Inductive StandardButton := Yes | No.

#[global] Instance DialogCode_eq_dec : EqDecision DialogCode.
Proof. solve_decision. Defined.
#[global] Instance StandardButton_eq_dec : EqDecision StandardButton.
Proof. solve_decision. Defined.
#[global] Instance Combo_eq_dec : EqDecision Combo.
Proof. solve_decision. Defined.

(** What a slot shows to the user or asks of [ComboManager]. *)
Inductive Event :=
  | EvComboDialog (combo : SPCombo)         (* [ComboDialog dlg(combo); dlg.exec()] *)
  | EvQuestion (text : string)              (* [QMessageBox::question] *)
  | EvSave (saved : list (option Combo)) (ok : bool)
                                            (* [saveComboListToFile], with the records of the list at that time *)
  | EvCritical (text : string).             (* [QMessageBox::critical] *)

(** The answers of the collaborators during one slot. *)
Record Env := mkEnv {
  (** [ui_.tableComboList->selectionModel()->selectedRows()]: the display
      rows that are selected. *)
  selectedRows : list Z;
  (** [proxyModel_.mapToSource(modelIndex).row()]: the source row of a display
      row, [-1] when the proxy has none. *)
  mapToSource : Z → Z;
  (** The contents of the record made by [Combo::create()]. *)
  Combo_create : Combo;
  (** The contents of the record made by [Combo::duplicate(combo)]. *)
  Combo_duplicate : Combo → Combo;
  (** [ComboDialog::exec()] on a record: the code it returns and the contents
      it leaves in the record it was given. *)
  ComboDialog_exec : Combo → DialogCode * Combo;
  (** The button pressed in [QMessageBox::question]. *)
  question : string → StandardButton;
  (** [ComboManager::saveComboListToFile(&errorMessage)]: the result and the
      contents of [errorMessage] after the call. *)
  saveComboListToFile : list (option Combo) → bool * string;
  (** What [ComboList::markComboAsEdited] does to the record it marks. *)
  markAsEdited : Combo → Combo
}.

(** The memory the frame works on. *)
Record World := mkWorld {
  heap : gmap SPCombo Combo;     (* the records the handles point to *)
  comboList : ComboList;         (* [ComboManager::instance().getComboListRef()] *)
  events : list Event            (* what has been shown and called, oldest first *)
}.

Definition logEvent (e : Event) (w : World) : World :=
  mkWorld (heap w) (comboList w) (events w ++ [e]).

(** The records of the list, read through the handles. *)
Definition records (w : World) : list (option Combo) :=
  (λ combo, heap w !! combo) <$> comboList w.

(** [getSelectedComboCount]. *)
Definition getSelectedComboCount (env : Env) : Z :=
  Z.of_nat (length (selectedRows env)).

(** The loop of [getSelectedComboIndexes], over the selected rows. *)
Fixpoint selectedIndexesFrom (env : Env) (listSize : Z) (rows : list Z) : list Z :=
  match rows with
  | [] => []
  | modelIndex :: rest =>
      let index := mapToSource env modelIndex in
      if (0 <=? index) && (index <? listSize)
      then index :: selectedIndexesFrom env listSize rest
      else selectedIndexesFrom env listSize rest
  end.

(** [getSelectedComboIndexes]. *)
Definition getSelectedComboIndexes (env : Env) (w : World) : list Z :=
  selectedIndexesFrom env (size (comboList w)) (selectedRows env).

(** [std::make_shared<Combo>]: a record behind a handle no one holds yet. *)
Definition allocate (c : Combo) (w : World) : SPCombo * World :=
  let combo := fresh (dom (heap w)) in
  (combo, mkWorld (<[combo := c]> (heap w)) (comboList w) (events w)).

(** [ComboDialog dlg(combo); dlg.exec()]: the dialog works on the record
    behind the handle it was given, and on no other. *)
Definition execComboDialog (env : Env) (combo : SPCombo) (w : World)
  : option (DialogCode * World) :=
  c ← heap w !! combo;
  let '(code, c') := ComboDialog_exec env c in
  Some (code, mkWorld (<[combo := c']> (heap w)) (comboList w)
                      (events w ++ [EvComboDialog combo])).

(** [comboManager.saveComboListToFile(&errorMessage)]. *)
Definition callSaveComboListToFile (env : Env) (w : World) : bool * string * World :=
  let '(ok, errorMessage) := saveComboListToFile env (records w) in
  (ok, errorMessage, logEvent (EvSave (records w) ok) w).

(** The end of the add, delete and edit slots:
    [QString errorMessage;
     if (!comboManager.saveComboListToFile(&errorMessage))
        QMessageBox::critical(this, tr("Error"), errorMessage);] *)
Definition saveOrReport (env : Env) (w : World) : World :=
  let '(ok, errorMessage, w) := callSaveComboListToFile env w in
  if negb ok then logEvent (EvCritical errorMessage) w else w.

(** [comboList.append(combo)]. *)
Definition appendCombo (combo : SPCombo) (w : World) : World :=
  mkWorld (heap w) (append combo (comboList w)) (events w).

(** [comboManager.getComboListRef().erase(index)]. *)
Definition eraseCombo (index : Z) (w : World) : option World :=
  l ← erase index (comboList w);
  Some (mkWorld (heap w) l (events w)).

(** Modelled from the spec: [ComboList::markComboAsEdited(index)] "marks the
    record as edited (e.g., to update a last modified timestamp or re-sort
    key)"; the list itself keeps its entries. *)
Definition markComboAsEdited (env : Env) (index : Z) (w : World) : option World :=
  combo ← at_index (comboList w) index;
  c ← heap w !! combo;
  Some (mkWorld (<[combo := markAsEdited env c]> (heap w)) (comboList w) (events w)).

(** [onActionAddCombo]. *)
Definition onActionAddCombo (env : Env) (w : World) : option World :=
  let '(combo, w) := allocate (Combo_create env) w in
  '(code, w) ← execComboDialog env combo w;
  if bool_decide (Accepted ≠ code) then Some w else
  let w := appendCombo combo w in
  Some (saveOrReport env w).

(** [onActionDuplicateCombo]. *)
Definition onActionDuplicateCombo (env : Env) (w : World) : option World :=
  let selectedIndex := getSelectedComboIndexes env w in
  if bool_decide (1 ≠ Z.of_nat (length selectedIndex)) then Some w else
  index ← selectedIndex !! 0%nat;
  guard (0 ≤ index < size (comboList w));;
  original ← at_index (comboList w) index;
  c ← heap w !! original;
  let '(combo, w) := allocate (Combo_duplicate env c) w in
  '(code, w) ← execComboDialog env combo w;
  if bool_decide (Accepted ≠ code) then Some w else
  Some (appendCombo combo w).

Definition questionPlural : string :=
  "Are you sure you want to delete the selected combos?".
Definition questionSingular : string :=
  "Are you sure you want to delete the selected combo?".

(** [count > 1 ? tr("...combos?") : tr("...combo?")]. *)
Definition deleteQuestion (count : Z) : string :=
  if count >? 1 then questionPlural else questionSingular.

(** The comparison handed to [std::sort]:
    [[](qint32 first, qint32 second) -> bool { return first > second; }]. *)
Definition descending : Z → Z → bool := λ first second, first >? second.

(** The loop [for (qint32 index : indexes) ...erase(index)]. *)
Fixpoint eraseEach (indexes : list Z) (w : World) : option World :=
  match indexes with
  | [] => Some w
  | index :: rest => w ← eraseCombo index w; eraseEach rest w
  end.

(** [onActionDeleteCombo]. *)
Definition onActionDeleteCombo (env : Env) (w : World) : option World :=
  let count := getSelectedComboCount env in
  if count <? 1 then Some w else
  let text := deleteQuestion count in
  let w := logEvent (EvQuestion text) w in
  if bool_decide (Yes ≠ question env text) then Some w else
  let indexes := getSelectedComboIndexes env w in
  let indexes := Std.sort descending indexes in
  w ← eraseEach indexes w;
  Some (saveOrReport env w).

(** [onActionEditCombo]. *)
Definition onActionEditCombo (env : Env) (w : World) : option World :=
  let selectedIndex := getSelectedComboIndexes env w in
  if bool_decide (1 ≠ Z.of_nat (length selectedIndex)) then Some w else
  index ← selectedIndex !! 0%nat;
  guard (0 ≤ index < size (comboList w));;
  combo ← at_index (comboList w) index;
  '(code, w) ← execComboDialog env combo w;
  if bool_decide (Accepted ≠ code) then Some w else
  w ← markComboAsEdited env index w;
  Some (saveOrReport env w).

(** Every handle of the list has a record. *)
Definition wf (w : World) : Prop :=
  Forall (λ combo, is_Some (heap w !! combo)) (comboList w).

#[global] Instance wf_dec w : Decision (wf w).
Proof. unfold wf. apply _. Defined.

(** *** What the delete operation is expected to leave

    The entries of [l] whose position is not among [indexes], in the order of
    [l]; [position] is the position of the head of [l]. *)
Fixpoint keepOthersFrom {A} (position : Z) (indexes : list Z) (l : list A) : list A :=
  match l with
  | [] => []
  | x :: l' =>
      if bool_decide (position ∈ indexes)
      then keepOthersFrom (position + 1) indexes l'
      else x :: keepOthersFrom (position + 1) indexes l'
  end.

Definition keepOthers {A} (indexes : list Z) (l : list A) : list A :=
  keepOthersFrom 0 indexes l.

(** The four slots that change the list, and a session: the slots the user
    triggers one after the other, each with the answers it gets. *)
Inductive Slot := Add | Duplicate | Delete | Edit.

Definition runSlot (slot : Slot) : Env → World → option World :=
  match slot with
  | Add => onActionAddCombo
  | Duplicate => onActionDuplicateCombo
  | Delete => onActionDeleteCombo
  | Edit => onActionEditCombo
  end.

Fixpoint runSlots (session : list (Slot * Env)) (w : World) : option World :=
  match session with
  | [] => Some w
  | (slot, env) :: rest => w ← runSlot slot env w; runSlots rest w
  end.

(** The program starts with an empty list. *)
Definition emptyWorld : World := mkWorld ∅ [] [].

(** The events that only show a dialog: no call of [saveComboListToFile] and
    no error box. *)
Definition isPrompt (e : Event) : Prop :=
  match e with
  | EvComboDialog _ | EvQuestion _ => True
  | EvSave _ _ | EvCritical _ => False
  end.

End ComboTableFrame.

(** ** Sample states *)

Module Samples.
Import ComboModel ComboTableFrame.

Definition hello : Combo := mkCombo "id-0" "hi" "hello".
Definition regards : Combo := mkCombo "id-1" "br" "best regards".
Definition thanks : Combo := mkCombo "id-2" "ty" "thank you".

(** A list of three combos, nothing shown yet. *)
Definition threeCombos : World :=
  mkWorld (<[0%nat := hello]> (<[1%nat := regards]> (<[2%nat := thanks]> ∅)))
          [0%nat; 1%nat; 2%nat] [].

(** A dialog that sets the trigger text when it is accepted and leaves the
    record alone when it is rejected. *)
Definition sampleDialog (code : DialogCode) (c : Combo) : DialogCode * Combo :=
  (code, match code with
         | Accepted => mkCombo (uuid c) "zz" (substitutionText c)
         | Rejected => c
         end).

Definition sampleEnv (rows : list Z) (source : Z → Z) (code : DialogCode)
    (button : StandardButton) (saved : bool) : Env :=
  mkEnv rows source
        (mkCombo "id-new" "" "")
        (λ c, mkCombo "id-copy" (comboText c) (substitutionText c))
        (sampleDialog code)
        (λ _, button)
        (λ _, (saved, if saved then "" else "disk full"))
        (λ c, c).

(** The table shows the list in reverse order. *)
Definition reversed (row : Z) : Z := 2 - row.

(** A proxy without a source row for any display row. *)
Definition unmapped (row : Z) : Z := -1.

End Samples.

(** ** The preferences manager *)

Module PreferencesManager.

(** The values a [QVariant] holds in this program. [QString] and [QByteArray]
    are both modelled by [string], a sequence of bytes. *)
Inductive QVariant :=
  | Invalid                      (* [QVariant()] *)
  | VBool (b : bool)
  | VByteArray (array : string)
  | VString (s : string).

#[global] Instance QVariant_eq_dec : EqDecision QVariant.
Proof. solve_decision. Defined.

(** [QChar::toLower] on the letters A to Z. *)
Definition toLower (c : ascii) : ascii :=
  let n := N_of_ascii c in
  if ((65 <=? n) && (n <=? 90))%N then ascii_of_N (n + 32) else c.

Fixpoint toLowerString (s : string) : string :=
  match s with
  | EmptyString => EmptyString
  | String c s' => String (toLower c) (toLowerString s')
  end.

(** [QVariant::toBool], which is what [qvariant_cast<bool>] computes: a
    string or byte array is true unless its lower-case content is empty, "0"
    or "false". *)
Definition toBool (v : QVariant) : bool :=
  match v with
  | Invalid => false
  | VBool b => b
  | VByteArray s | VString s =>
      let lower := toLowerString s in
      negb (bool_decide (lower = "" ∨ lower = "0" ∨ lower = "false"))
  end.

(** [QVariant::toString]. *)
Definition toString (v : QVariant) : string :=
  match v with
  | Invalid => ""
  | VBool b => if b then "true" else "false"
  | VByteArray s | VString s => s
  end.

(** [QVariant::toByteArray]. *)
Definition toByteArray (v : QVariant) : string :=
  match v with
  | Invalid => ""
  | VBool b => if b then "true" else "false"
  | VByteArray s | VString s => s
  end.

(** A method of the manager is a computation on [settings_]: it returns a
    result and the store it leaves. *)
Definition Op (A : Type) : Type := gmap string QVariant → A * gmap string QVariant.

#[global] Instance Op_ret : MRet Op := λ A (a : A) settings, (a, settings).
#[global] Instance Op_bind : MBind Op := λ A B (f : A → Op B) (m : Op A) settings,
  let '(a, settings) := m settings in f a settings.

(** [QSettings::contains]. *)
Definition contains (key : string) : Op bool :=
  λ settings, (bool_decide (is_Some (settings !! key)), settings).

(** [QSettings::value(key, defaultValue)]. *)
Definition value (key : string) (defaultValue : QVariant) : Op QVariant :=
  λ settings, (default defaultValue (settings !! key), settings).

(** [QSettings::setValue]. *)
Definition setValue (key : string) (v : QVariant) : Op unit :=
  λ settings, ((), <[key := v]> settings).

Definition kKeyGeometry : string := "Geometry".
Definition kKeyAppExePath : string := "AppExePath".
Definition kKeyPlaySoundOnCombo : string := "PlaySoundOnCombo".
Definition kKeyAutoStartAtLogin : string := "AutoStartAtLogin".
Definition kDefaultValuePlaySoundOnCombo : bool := true.
Definition kDefaultvalueAutoStartAtLogin : bool := false.

Section Platform.

(** [QDir::separator()], the native separator of the platform: a backslash
    on Windows, a slash elsewhere. *)
Variable nativeSeparator : ascii.

(** [QDir::fromNativeSeparators]: every native separator becomes a slash. *)
Fixpoint fromNativeSeparators (pathName : string) : string :=
  match pathName with
  | EmptyString => EmptyString
  | String c rest =>
      String (if bool_decide (c = nativeSeparator) then "/"%char else c)
             (fromNativeSeparators rest)
  end.

(** [getInstalledApplicationPath]. *)
Definition getInstalledApplicationPath : Op string :=
  present ← contains kKeyAppExePath;
  if negb present then mret ""
  else v ← value kKeyAppExePath Invalid; mret (fromNativeSeparators (toString v)).

End Platform.

(** [setMainWindowGeometry]. *)
Definition setMainWindowGeometry (array : string) : Op unit :=
  setValue kKeyGeometry (VByteArray array).

(** [mainWindowGeometry]. *)
Definition mainWindowGeometry : Op string :=
  v ← value kKeyGeometry Invalid; mret (toByteArray v).

(** [setAutoStartAtLogin]. *)
Definition setAutoStartAtLogin (value : bool) : Op unit :=
  setValue kKeyAutoStartAtLogin (VBool value).

(** [getAutoStartAtLogin]. *)
Definition getAutoStartAtLogin : Op bool :=
  v ← value kKeyAutoStartAtLogin (VBool kDefaultvalueAutoStartAtLogin); mret (toBool v).

(** [setPlaySoundOnCombo]. *)
Definition setPlaySoundOnCombo (value : bool) : Op unit :=
  setValue kKeyPlaySoundOnCombo (VBool value).

(** [getPlaySoundOnCombo]. *)
Definition getPlaySoundOnCombo : Op bool :=
  v ← value kKeyPlaySoundOnCombo (VBool kDefaultValuePlaySoundOnCombo); mret (toBool v).

(** [reset]. *)
Definition reset : Op unit :=
  setPlaySoundOnCombo kDefaultValuePlaySoundOnCombo;;
  setAutoStartAtLogin kDefaultvalueAutoStartAtLogin.

(** The store as the installer leaves it on Windows. *)
Definition installedSettings : gmap string QVariant :=
  <[kKeyAppExePath := VString "C:\Program Files\Beeftext\Beeftext.exe"]> ∅.

End PreferencesManager.

(** ** The widgets of the frame, the selection and the search filter *)

Module ComboTableFrameView.
Import ComboModel ComboTableFrame.

(** Whether each button and action of the frame is enabled
    ([QWidget::setEnabled], [QAction::setEnabled]). *)
Record Widgets := mkWidgets {
  buttonDuplicateCombo : bool;
  actionDuplicateCombo : bool;
  buttonDeleteCombo : bool;
  actionDeleteCombo : bool;
  buttonEditCombo : bool;
  actionEditCombo : bool
}.

(** [updateGui]. Its last statement computes a local [hasItem] that nothing
    reads; it has no effect and is left out. *)
Definition updateGui (env : Env) (ui : Widgets) : Widgets :=
  let selectedCount := getSelectedComboCount env in
  let hasOneSelected := (1 =? selectedCount) in
  let hasOneOrMoreSelected := (selectedCount >? 0) in
  mkWidgets hasOneSelected hasOneSelected
            hasOneOrMoreSelected hasOneOrMoreSelected
            hasOneSelected hasOneSelected.

(** [onActionDeselectAll]: [ui_.tableComboList->clearSelection()] leaves no
    row selected. *)
Definition onActionDeselectAll (env : Env) : Env :=
  mkEnv [] (mapToSource env) (Combo_create env) (Combo_duplicate env)
        (ComboDialog_exec env) (question env) (saveComboListToFile env)
        (markAsEdited env).

(** The slots that append an entry, and how many of them a session has. *)
Definition appends (slot : Slot) : bool :=
  match slot with
  | Add | Duplicate => true
  | Delete | Edit => false
  end.

Definition countAppends (session : list (Slot * Env)) : Z :=
  Z.of_nat (length (filter (λ step, appends step.1 = true) session)).

Section SearchFilter.

(** A [QString] is a sequence of [QChar]; [isSpace] is [QChar::isSpace]. *)
Context {QChar : Type} (isSpace : QChar → bool).

Fixpoint dropSpaces (s : list QChar) : list QChar :=
  match s with
  | [] => []
  | c :: rest => if isSpace c then dropSpaces rest else s
  end.

(** [QString::trimmed]: the string without the whitespace at its start and
    at its end. *)
Definition trimmed (s : list QChar) : list QChar :=
  reverse (dropSpaces (reverse (dropSpaces s))).

(** [onSearchFilterChanged]: the result is the string handed to
    [proxyModel_.setFilterFixedString]. *)
Definition onSearchFilterChanged (text : list QChar) : list QChar :=
  let searchStr := trimmed text in
  searchStr.

End SearchFilter.

(** [QChar::isSpace] on the characters of ASCII: tab, line feed, vertical
    tab, form feed, carriage return and space. *)
Definition asciiIsSpace (c : ascii) : bool :=
  let n := N_of_ascii c in
  (((9 <=? n) && (n <=? 13)) || (n =? 32))%N.

End ComboTableFrameView.

(** * Properties *)

(** ** Sorting in descending order *)

Module StdFacts.
Import Std ComboTableFrame.

Lemma sort_insert_Permutation comp x l : sort_insert comp x l ≡ₚ x :: l.
Proof.
  induction l as [|y l IH]; simpl; [done|].
  destruct (comp y x); [|done].
  rewrite IH. apply Permutation_swap.
Qed.

Lemma sort_Permutation comp l : sort comp l ≡ₚ l.
Proof.
  induction l as [|x l IH]; simpl; [done|].
  by rewrite sort_insert_Permutation, IH.
Qed.

Lemma sort_insert_descending x l :
  StronglySorted Z.ge l → StronglySorted Z.ge (sort_insert descending x l).
Proof.
  induction 1 as [|y l Hl IH Hy]; simpl.
  - repeat constructor.
  - unfold descending at 1. destruct (Z.gtb_spec y x) as [Hgt|Hle].
    + constructor; [done|].
      rewrite sort_insert_Permutation. constructor; [lia|done].
    + constructor; [by constructor|].
      constructor; [lia|].
      eapply Forall_impl; [exact Hy|]. intros z Hz; simpl in *. lia.
Qed.

Lemma sort_descending l : StronglySorted Z.ge (sort descending l).
Proof.
  induction l as [|x l IH]; simpl; [constructor|].
  by apply sort_insert_descending.
Qed.

(** Without repetitions, a descending list is strictly descending. *)
Lemma descending_NoDup_strict l :
  StronglySorted Z.ge l → NoDup l → StronglySorted Z.gt l.
Proof.
  induction 1 as [|x l Hl IH Hx]; intros Hnd; [constructor|].
  apply NoDup_cons in Hnd as [Hx' Hnd].
  constructor; [by apply IH|].
  apply Forall_forall. intros y Hy.
  rewrite Forall_forall in Hx. specialize (Hx y Hy).
  assert (x ≠ y) by (intros ->; done). lia.
Qed.

Lemma sort_strictly_descending l :
  NoDup l → StronglySorted Z.gt (sort descending l).
Proof.
  intros Hnd. apply descending_NoDup_strict; [apply sort_descending|].
  by rewrite sort_Permutation.
Qed.

End StdFacts.

(** ** The selection and the combo list *)

Module ComboTableFrameFacts.
Import ComboModel Std StdFacts ComboTableFrame.

Lemma selectedIndexesFrom_filter env listSize rows :
  selectedIndexesFrom env listSize rows
  = filter (λ index, 0 ≤ index < listSize) (mapToSource env <$> rows).
Proof.
  induction rows as [|modelIndex rest IH]; simpl; [done|].
  rewrite filter_cons, IH.
  destruct (decide (0 ≤ mapToSource env modelIndex < listSize)) as [Hin|Hout].
  - replace (0 <=? _) with true by lia. replace (_ <? _) with true by lia. done.
  - destruct (Z.leb_spec 0 (mapToSource env modelIndex)); simpl; [|done].
    replace (_ <? _) with false by lia. done.
Qed.

Lemma selectedIndexes_in_range env w :
  Forall (λ index, 0 ≤ index < size (comboList w)) (getSelectedComboIndexes env w).
Proof.
  unfold getSelectedComboIndexes. rewrite selectedIndexesFrom_filter.
  apply Forall_forall. intros index Hin.
  by apply list_elem_of_filter in Hin as [? _].
Qed.

Lemma at_index_in_range (l : ComboList) index :
  0 ≤ index < size l → is_Some (at_index l index).
Proof.
  intros Hr. unfold at_index. rewrite bool_decide_eq_true_2 by done.
  apply lookup_lt_is_Some. unfold size in Hr. lia.
Qed.

(** C1. Every index that [getSelectedComboIndexes] returns is a valid index
    into the combo list at the time of the call: it lies in
    [0, comboList.size()) and the list has an entry there. The result is the
    list of the source rows of the selected rows, in order, without those
    outside that range. *)
Theorem getSelectedComboIndexes_valid (env : Env) (w : World) :
  Forall (λ index, 0 ≤ index < size (comboList w)
                   ∧ is_Some (at_index (comboList w) index))
         (getSelectedComboIndexes env w)
  ∧ getSelectedComboIndexes env w
    = filter (λ index, 0 ≤ index < size (comboList w))
             (mapToSource env <$> selectedRows env).
Proof.
  split.
  - eapply Forall_impl; [apply selectedIndexes_in_range|].
    intros index Hr. split; [done|]. by apply at_index_in_range.
  - apply selectedIndexesFrom_filter.
Qed.

(** *** Erasing in descending order *)

Lemma keepOthersFrom_all {A} position indexes (l : list A) :
  Forall (λ index, index < position) indexes →
  keepOthersFrom position indexes l = l.
Proof.
  revert position. induction l as [|x l IH]; intros position Hlt; simpl; [done|].
  rewrite bool_decide_eq_false_2.
  - f_equal. apply IH. eapply Forall_impl; [exact Hlt|]. simpl. lia.
  - intros Hin. rewrite Forall_forall in Hlt. specialize (Hlt _ Hin). lia.
Qed.

Lemma keepOthersFrom_Permutation {A} position indexes indexes' (l : list A) :
  indexes ≡ₚ indexes' →
  keepOthersFrom position indexes l = keepOthersFrom position indexes' l.
Proof.
  intros Hp. revert position.
  induction l as [|x l IH]; intros position; simpl; [done|].
  rewrite (bool_decide_ext (position ∈ indexes) (position ∈ indexes'))
    by (by rewrite Hp).
  by rewrite IH.
Qed.

(** Erasing the largest index first leaves the positions of the others as
    they were. *)
Lemma keepOthersFrom_erase_largest {A} position index rest (l : list A) :
  position ≤ index →
  Forall (λ other, other < index) rest →
  keepOthersFrom position (index :: rest) l
  = keepOthersFrom position rest (delete (Z.to_nat (index - position)) l).
Proof.
  revert position. induction l as [|x l IH]; intros position Hle Hlt; simpl; [done|].
  destruct (decide (position = index)) as [->|Hne].
  - rewrite bool_decide_eq_true_2 by set_solver.
    replace (index - index) with 0 by lia. simpl.
    rewrite !keepOthersFrom_all; [done| |].
    + eapply Forall_impl; [exact Hlt|]. simpl. lia.
    + constructor; [lia|]. eapply Forall_impl; [exact Hlt|]. simpl. lia.
  - replace (Z.to_nat (index - position))
      with (S (Z.to_nat (index - (position + 1)))) by lia.
    simpl.
    rewrite (bool_decide_ext (position ∈ index :: rest) (position ∈ rest))
      by (rewrite elem_of_cons; intuition congruence).
    rewrite IH by (done || lia). done.
Qed.

Lemma eraseEach_descending indexes w :
  StronglySorted Z.gt indexes →
  Forall (λ index, 0 ≤ index < size (comboList w)) indexes →
  eraseEach indexes w
  = Some (mkWorld (heap w) (keepOthers indexes (comboList w)) (events w)).
Proof.
  intros Hsorted. revert w.
  induction Hsorted as [|index rest Hrest IH Hgt]; intros w Hrange.
  - simpl. unfold keepOthers. rewrite keepOthersFrom_all by constructor.
    by destruct w.
  - apply Forall_cons in Hrange as [Hindex Hrange].
    assert (Forall (λ other, other < index) rest) as Hlt.
    { eapply Forall_impl; [exact Hgt|]. simpl. lia. }
    simpl. unfold eraseCombo, erase.
    rewrite bool_decide_eq_true_2 by done. simpl.
    rewrite IH; simpl.
    + unfold keepOthers. rewrite keepOthersFrom_erase_largest by (done || lia).
      by replace (index - 0) with index by lia.
    + unfold size in *.
      rewrite Forall_forall in Hrange, Hlt. apply Forall_forall.
      intros other Hother. specialize (Hrange _ Hother).
      specialize (Hlt _ Hother).
      rewrite length_delete by (apply lookup_lt_is_Some; lia). lia.
Qed.

Lemma eraseEach_length indexes w w' :
  eraseEach indexes w = Some w' →
  size (comboList w') = size (comboList w) - Z.of_nat (length indexes).
Proof.
  revert w. induction indexes as [|index rest IH]; intros w Heq; simpl in *.
  - injection Heq as <-. lia.
  - unfold eraseCombo, erase in Heq. case_bool_decide as Hr; [|done].
    simpl in Heq. apply IH in Heq. simpl in Heq.
    unfold size in *.
    rewrite length_delete in Heq by (apply lookup_lt_is_Some; lia). lia.
Qed.

Lemma selectedRows_count env :
  selectedRows env ≠ [] → (getSelectedComboCount env <? 1) = false.
Proof.
  unfold getSelectedComboCount. destruct (selectedRows env); [done|].
  intros _. apply Z.ltb_ge. rewrite length_cons. lia.
Qed.

(** The delete slot once its guard is passed and the question is answered
    with Yes. *)
Lemma onActionDeleteCombo_confirmed env w :
  selectedRows env ≠ [] →
  question env (deleteQuestion (getSelectedComboCount env)) = Yes →
  NoDup (getSelectedComboIndexes env w) →
  onActionDeleteCombo env w
  = Some (saveOrReport env
      (mkWorld (heap w)
               (keepOthers (getSelectedComboIndexes env w) (comboList w))
               (events w ++ [EvQuestion (deleteQuestion (getSelectedComboCount env))]))).
Proof.
  intros Hsel Hyes Hnd. unfold onActionDeleteCombo. cbv zeta.
  rewrite selectedRows_count by done. rewrite Hyes.
  rewrite bool_decide_eq_false_2 by (intros Hne; exact (Hne eq_refl)).
  change (getSelectedComboIndexes env (logEvent _ w))
    with (getSelectedComboIndexes env w).
  rewrite eraseEach_descending.
  - simpl. unfold keepOthers.
    by rewrite (keepOthersFrom_Permutation _ _ _ _ (sort_Permutation _ _)).
  - by apply sort_strictly_descending.
  - rewrite sort_Permutation. apply (selectedIndexes_in_range env w).
Qed.

Lemma saveOrReport_comboList env w : comboList (saveOrReport env w) = comboList w.
Proof.
  unfold saveOrReport, callSaveComboListToFile.
  destruct (saveComboListToFile env (records w)) as [[] msg]; done.
Qed.

Lemma saveOrReport_heap env w : heap (saveOrReport env w) = heap w.
Proof.
  unfold saveOrReport, callSaveComboListToFile.
  destruct (saveComboListToFile env (records w)) as [[] msg]; done.
Qed.

(** C2. When at least one row is selected, the question is answered with Yes
    and the selected source indexes are pairwise distinct, the delete slot
    completes (every [erase] is given an index that is valid at that moment)
    and leaves exactly the entries whose position was not selected, in their
    order; the list is shorter by the number of selected indexes and no
    record is altered. *)
Theorem onActionDeleteCombo_removes_exactly_selected (env : Env) (w : World) :
  selectedRows env ≠ [] →
  question env (deleteQuestion (getSelectedComboCount env)) = Yes →
  NoDup (getSelectedComboIndexes env w) →
  ∃ w', onActionDeleteCombo env w = Some w'
    ∧ eraseEach (sort descending (getSelectedComboIndexes env w)) w
      = Some (mkWorld (heap w) (comboList w') (events w))
    ∧ comboList w' = keepOthers (getSelectedComboIndexes env w) (comboList w)
    ∧ size (comboList w')
      = size (comboList w) - Z.of_nat (length (getSelectedComboIndexes env w))
    ∧ heap w' = heap w.
Proof.
  intros Hsel Hyes Hnd. eexists. split.
  { by apply onActionDeleteCombo_confirmed. }
  rewrite saveOrReport_comboList, saveOrReport_heap. simpl.
  assert (eraseEach (sort descending (getSelectedComboIndexes env w)) w
          = Some (mkWorld (heap w)
                    (keepOthers (getSelectedComboIndexes env w) (comboList w))
                    (events w))) as Herase.
  { rewrite eraseEach_descending.
    - unfold keepOthers.
      by rewrite (keepOthersFrom_Permutation _ _ _ _ (sort_Permutation _ _)).
    - by apply sort_strictly_descending.
    - rewrite sort_Permutation. apply selectedIndexes_in_range. }
  split_and!; [done|done| |done].
  apply eraseEach_length in Herase. simpl in Herase.
  by rewrite (Permutation_length (sort_Permutation _ _)) in Herase.
Qed.

Lemma onActionDeleteCombo_removes_exactly_selected_witness :
  let env := Samples.sampleEnv [2; 0] Samples.reversed Accepted Yes true in
  let w := Samples.threeCombos in
  (selectedRows env ≠ [])
  ∧ (question env (deleteQuestion (getSelectedComboCount env)) = Yes)
  ∧ (NoDup (getSelectedComboIndexes env w))
  ∧ (∃ w', onActionDeleteCombo env w = Some w'
    ∧ eraseEach (sort descending (getSelectedComboIndexes env w)) w
      = Some (mkWorld (heap w) (comboList w') (events w))
    ∧ comboList w' = keepOthers (getSelectedComboIndexes env w) (comboList w)
    ∧ size (comboList w')
      = size (comboList w) - Z.of_nat (length (getSelectedComboIndexes env w))
    ∧ heap w' = heap w).
Proof.
  intros env w.
  assert (selectedRows env ≠ []) as H1.
  { discriminate. }
  assert (question env (deleteQuestion (getSelectedComboCount env)) = Yes) as H2.
  { reflexivity. }
  assert (NoDup (getSelectedComboIndexes env w)) as H3.
  { apply (bool_decide_unpack (NoDup _)). vm_compute. exact I. }
  split; [done|].
  split; [done|].
  split; [done|].
  exact (onActionDeleteCombo_removes_exactly_selected env w H1 H2 H3).
Defined.

(** Erasing the same two entries in ascending order goes wrong: after the
    entry at 0 is erased there is no entry at 2 any more, and with the
    indexes 0 and 1 the entries that go are those that were at 0 and 2. *)
Example erase_ascending_out_of_range :
  eraseEach [0; 2] Samples.threeCombos = None.
Proof. reflexivity. Qed.

Example erase_ascending_wrong_entry :
  comboList <$> eraseEach [0; 1] Samples.threeCombos = Some [1%nat].
Proof. reflexivity. Qed.

(** *** The slots, step by step *)

Lemma saveOrReport_records env w : records (saveOrReport env w) = records w.
Proof.
  unfold records. by rewrite saveOrReport_comboList, saveOrReport_heap.
Qed.

Lemma saveOrReport_events env w :
  events (saveOrReport env w)
  = events w ++ EvSave (records w) (saveComboListToFile env (records w)).1
      :: (if (saveComboListToFile env (records w)).1 then []
          else [EvCritical (saveComboListToFile env (records w)).2]).
Proof.
  unfold saveOrReport, callSaveComboListToFile.
  destruct (saveComboListToFile env (records w)) as [[] msg]; simpl; [done|].
  by rewrite <- app_assoc.
Qed.

Lemma fresh_handle_unused (w : World) : heap w !! fresh (dom (heap w)) = None.
Proof. apply not_elem_of_dom, is_fresh. Qed.

(** The dialog run on the record of a handle. *)
Lemma execComboDialog_run env combo c w :
  heap w !! combo = Some c →
  execComboDialog env combo w
  = Some ((ComboDialog_exec env c).1,
          mkWorld (<[combo := (ComboDialog_exec env c).2]> (heap w)) (comboList w)
                  (events w ++ [EvComboDialog combo])).
Proof.
  intros Hc. unfold execComboDialog. rewrite Hc. simpl.
  by destruct (ComboDialog_exec env c).
Qed.

Lemma onActionAddCombo_run env w :
  let combo := fresh (dom (heap w)) in
  let edited := ComboDialog_exec env (Combo_create env) in
  let shown := mkWorld (<[combo := edited.2]> (heap w)) (comboList w)
                       (events w ++ [EvComboDialog combo]) in
  onActionAddCombo env w
  = Some (if decide (edited.1 = Accepted)
          then saveOrReport env (appendCombo combo shown)
          else shown).
Proof.
  intros combo edited shown. unfold onActionAddCombo, allocate.
  rewrite (execComboDialog_run _ _ (Combo_create env)) by apply lookup_insert_eq.
  simpl. rewrite insert_insert_eq. fold combo edited shown.
  destruct (edited.1); by simpl.
Qed.

(** A single selected index designates an entry of the list, and in a
    well-formed world a record. *)
Lemma single_selection_record env w index :
  wf w →
  getSelectedComboIndexes env w = [index] →
  ∃ combo c, 0 ≤ index < size (comboList w)
    ∧ comboList w !! Z.to_nat index = Some combo
    ∧ heap w !! combo = Some c.
Proof.
  intros Hwf Hsel.
  pose proof (selectedIndexes_in_range env w) as Hr. rewrite Hsel in Hr.
  apply Forall_cons in Hr as [Hr _].
  destruct (lookup_lt_is_Some_2 (comboList w) (Z.to_nat index)) as [combo Hcombo].
  { simpl in Hr. unfold size in Hr. lia. }
  unfold wf in Hwf. rewrite Forall_forall in Hwf.
  destruct (Hwf combo) as [c Hc]; [by eapply list_elem_of_lookup_2|].
  by exists combo, c.
Qed.

Lemma at_index_lookup (l : ComboList) index :
  0 ≤ index < size l → at_index l index = l !! Z.to_nat index.
Proof. intros Hr. unfold at_index. by rewrite bool_decide_eq_true_2. Qed.

Lemma onActionDuplicateCombo_run env w index original c :
  getSelectedComboIndexes env w = [index] →
  0 ≤ index < size (comboList w) →
  comboList w !! Z.to_nat index = Some original →
  heap w !! original = Some c →
  let combo := fresh (dom (heap w)) in
  let edited := ComboDialog_exec env (Combo_duplicate env c) in
  let shown := mkWorld (<[combo := edited.2]> (heap w)) (comboList w)
                       (events w ++ [EvComboDialog combo]) in
  onActionDuplicateCombo env w
  = Some (if decide (edited.1 = Accepted) then appendCombo combo shown else shown).
Proof.
  intros Hsel Hr Horiginal Hc combo edited shown.
  unfold onActionDuplicateCombo. cbv zeta. rewrite Hsel. simpl.
  rewrite option_guard_True by done. simpl.
  rewrite at_index_lookup, Horiginal by done. simpl. rewrite Hc. simpl.
  unfold allocate.
  rewrite (execComboDialog_run _ _ (Combo_duplicate env c)) by apply lookup_insert_eq.
  simpl. rewrite insert_insert_eq. fold combo edited shown.
  destruct (edited.1); by simpl.
Qed.

Lemma onActionEditCombo_run env w index combo c :
  getSelectedComboIndexes env w = [index] →
  0 ≤ index < size (comboList w) →
  comboList w !! Z.to_nat index = Some combo →
  heap w !! combo = Some c →
  let edited := ComboDialog_exec env c in
  let shown := mkWorld (<[combo := edited.2]> (heap w)) (comboList w)
                       (events w ++ [EvComboDialog combo]) in
  onActionEditCombo env w
  = Some (if decide (edited.1 = Accepted)
          then saveOrReport env
                 (mkWorld (<[combo := markAsEdited env edited.2]> (heap w))
                          (comboList w) (events w ++ [EvComboDialog combo]))
          else shown).
Proof.
  intros Hsel Hr Hcombo Hc edited shown.
  unfold onActionEditCombo. cbv zeta. rewrite Hsel. simpl.
  rewrite option_guard_True by done. simpl.
  rewrite at_index_lookup, Hcombo by done. simpl.
  rewrite (execComboDialog_run _ _ c) by done.
  simpl. fold edited shown.
  destruct (edited.1) eqn:Hcode; simpl; [done|].
  unfold markComboAsEdited. simpl.
  rewrite at_index_lookup, Hcombo by done. simpl.
  rewrite lookup_insert_eq. simpl. by rewrite insert_insert_eq.
Qed.

(** With any other number of selected indexes than one, the duplicate and
    edit slots return at once. *)
Lemma onActionDuplicateCombo_guard env w :
  length (getSelectedComboIndexes env w) ≠ 1%nat →
  onActionDuplicateCombo env w = Some w.
Proof.
  intros Hlen. unfold onActionDuplicateCombo. cbv zeta.
  rewrite bool_decide_eq_true_2 by lia. done.
Qed.

Lemma onActionEditCombo_guard env w :
  length (getSelectedComboIndexes env w) ≠ 1%nat →
  onActionEditCombo env w = Some w.
Proof.
  intros Hlen. unfold onActionEditCombo. cbv zeta.
  rewrite bool_decide_eq_true_2 by lia. done.
Qed.

Lemma fresh_handle_not_in_list (w : World) :
  wf w → fresh (dom (heap w)) ∉ comboList w.
Proof.
  intros Hwf Hin. unfold wf in Hwf. rewrite Forall_forall in Hwf.
  destruct (Hwf _ Hin) as [c Hc]. by rewrite fresh_handle_unused in Hc.
Qed.

(** C3. With exactly one selected index and the dialog accepted, the
    duplicate slot appends one entry: the list grows by one, the new entry is
    a handle that was not in the list and holds the clone as the dialog left
    it, every entry that was in the list is still at its place, and every
    record that existed, the original among them, is unchanged. *)
Theorem onActionDuplicateCombo_appends_clone (env : Env) (w : World) (index : Z) :
  wf w →
  getSelectedComboIndexes env w = [index] →
  (∀ c, (ComboDialog_exec env c).1 = Accepted) →
  ∃ w' original c combo,
    onActionDuplicateCombo env w = Some w'
    ∧ comboList w !! Z.to_nat index = Some original
    ∧ heap w !! original = Some c
    ∧ comboList w' = comboList w ++ [combo]
    ∧ size (comboList w') = size (comboList w) + 1
    ∧ (combo ∉ comboList w)
    ∧ heap w' !! combo = Some (ComboDialog_exec env (Combo_duplicate env c)).2
    ∧ comboList w' !! Z.to_nat index = Some original
    ∧ heap w' !! original = Some c
    ∧ (∀ other, other ≠ combo → heap w' !! other = heap w !! other).
Proof.
  intros Hwf Hsel Haccepted.
  destruct (single_selection_record env w index Hwf Hsel)
    as (original & c & Hr & Horiginal & Hc).
  pose proof (fresh_handle_not_in_list w Hwf) as Hfresh.
  eexists _, original, c, (fresh (dom (heap w))). split.
  { rewrite (onActionDuplicateCombo_run env w index original c) by done.
    rewrite decide_True by apply Haccepted. done. }
  unfold appendCombo, append, size. simpl.
  split_and!; try done.
  - rewrite length_app. simpl. lia.
  - apply lookup_insert_eq.
  - by apply lookup_app_l_Some.
  - rewrite lookup_insert_ne; [done|]. intros Heq.
    apply Hfresh. rewrite Heq. by eapply list_elem_of_lookup_2.
  - intros other Hother. by rewrite lookup_insert_ne.
Qed.

Lemma onActionDuplicateCombo_appends_clone_witness :
  let env := Samples.sampleEnv [1] Samples.reversed Accepted Yes true in
  let w := Samples.threeCombos in
  let index := 1 in
  (wf w)
  ∧ (getSelectedComboIndexes env w = [index])
  ∧ ((∀ c, (ComboDialog_exec env c).1 = Accepted))
  ∧ (∃ w' original c combo,
    onActionDuplicateCombo env w = Some w'
    ∧ comboList w !! Z.to_nat index = Some original
    ∧ heap w !! original = Some c
    ∧ comboList w' = comboList w ++ [combo]
    ∧ size (comboList w') = size (comboList w) + 1
    ∧ (combo ∉ comboList w)
    ∧ heap w' !! combo = Some (ComboDialog_exec env (Combo_duplicate env c)).2
    ∧ comboList w' !! Z.to_nat index = Some original
    ∧ heap w' !! original = Some c
    ∧ (∀ other, other ≠ combo → heap w' !! other = heap w !! other)).
Proof.
  intros env w index.
  assert (wf w) as H1.
  { apply (bool_decide_unpack (wf _)). vm_compute. exact I. }
  assert (getSelectedComboIndexes env w = [index]) as H2.
  { reflexivity. }
  assert ((∀ c, (ComboDialog_exec env c).1 = Accepted)) as H3.
  { intros c. reflexivity. }
  split; [done|].
  split; [done|].
  split; [done|].
  exact (onActionDuplicateCombo_appends_clone env w index H1 H2 H3).
Defined.

(** *** Rejected dialogs *)

(** The delete slot when the question is not answered with Yes. *)
Lemma onActionDeleteCombo_declined env w :
  question env (deleteQuestion (getSelectedComboCount env)) ≠ Yes →
  onActionDeleteCombo env w
  = Some (if getSelectedComboCount env <? 1 then w
          else logEvent (EvQuestion (deleteQuestion (getSelectedComboCount env))) w).
Proof.
  intros Hno. unfold onActionDeleteCombo. cbv zeta.
  destruct (getSelectedComboCount env <? 1); [done|].
  rewrite bool_decide_eq_true_2; [done|]. by intros Heq.
Qed.

(** C4. When the combo dialog is rejected and the delete question is not
    answered with Yes, none of the four slots changes the combo list: it has
    the same entries, hence the same size, and nothing but the dialog or the
    question is shown (no save, no error box). After add, duplicate and
    delete every record that existed is unchanged; after edit the only record
    that can differ is the one handed to the dialog, which holds what the
    dialog left in it. *)
Theorem rejected_dialog_no_mutation (env : Env) (w : World) :
  wf w →
  (∀ c, (ComboDialog_exec env c).1 = Rejected) →
  question env (deleteQuestion (getSelectedComboCount env)) = No →
  (∃ w', onActionAddCombo env w = Some w'
     ∧ comboList w' = comboList w
     ∧ size (comboList w') = size (comboList w)
     ∧ heap w ⊆ heap w'
     ∧ ∃ shown, events w' = events w ++ shown ∧ Forall isPrompt shown)
  ∧ (∃ w', onActionDuplicateCombo env w = Some w'
     ∧ comboList w' = comboList w
     ∧ size (comboList w') = size (comboList w)
     ∧ heap w ⊆ heap w'
     ∧ ∃ shown, events w' = events w ++ shown ∧ Forall isPrompt shown)
  ∧ (∃ w', onActionEditCombo env w = Some w'
     ∧ comboList w' = comboList w
     ∧ size (comboList w') = size (comboList w)
     ∧ (heap w' = heap w
        ∨ ∃ combo c, combo ∈ comboList w ∧ heap w !! combo = Some c
            ∧ heap w' = <[combo := (ComboDialog_exec env c).2]> (heap w))
     ∧ ∃ shown, events w' = events w ++ shown ∧ Forall isPrompt shown)
  ∧ (∃ w', onActionDeleteCombo env w = Some w'
     ∧ comboList w' = comboList w
     ∧ size (comboList w') = size (comboList w)
     ∧ heap w' = heap w
     ∧ ∃ shown, events w' = events w ++ shown ∧ Forall isPrompt shown).
Proof.
  intros Hwf Hrejected Hno. split_and!.
  - eexists. split; [apply onActionAddCombo_run|].
    rewrite decide_False by (rewrite Hrejected; discriminate). simpl.
    split_and!; [done|done| |].
    + apply insert_subseteq, fresh_handle_unused.
    + eexists. split; [done|]. by repeat constructor.
  - destruct (decide (length (getSelectedComboIndexes env w) = 1%nat)) as [Hone|Hnot].
    + destruct (getSelectedComboIndexes env w) as [|index [|]] eqn:Hsel; try done.
      destruct (single_selection_record env w index Hwf Hsel)
        as (original & c & Hr & Horiginal & Hc).
      eexists. split; [by apply (onActionDuplicateCombo_run env w index original c)|].
      rewrite decide_False by (rewrite Hrejected; discriminate). simpl.
      split_and!; [done|done| |].
      * apply insert_subseteq, fresh_handle_unused.
      * eexists. split; [done|]. by repeat constructor.
    + exists w. split; [by apply onActionDuplicateCombo_guard|].
      split_and!; try done. exists []. by rewrite app_nil_r.
  - destruct (decide (length (getSelectedComboIndexes env w) = 1%nat)) as [Hone|Hnot].
    + destruct (getSelectedComboIndexes env w) as [|index [|]] eqn:Hsel; try done.
      destruct (single_selection_record env w index Hwf Hsel)
        as (combo & c & Hr & Hcombo & Hc).
      eexists. split; [by apply (onActionEditCombo_run env w index combo c)|].
      rewrite decide_False by (rewrite Hrejected; discriminate). simpl.
      split_and!; [done|done| |].
      * right. exists combo, c. split_and!; [|done|done].
        by eapply list_elem_of_lookup_2.
      * eexists. split; [done|]. by repeat constructor.
    + exists w. split; [by apply onActionEditCombo_guard|].
      split_and!; try done; [by left|]. exists []. by rewrite app_nil_r.
  - eexists. split; [apply onActionDeleteCombo_declined; by rewrite Hno|].
    destruct (getSelectedComboCount env <? 1); simpl.
    + split_and!; try done. exists []. by rewrite app_nil_r.
    + split_and!; try done. eexists. split; [done|]. by repeat constructor.
Qed.

Lemma rejected_dialog_no_mutation_witness :
  let env := Samples.sampleEnv [1] Samples.reversed Rejected No true in
  let w := Samples.threeCombos in
  (wf w)
  ∧ ((∀ c, (ComboDialog_exec env c).1 = Rejected))
  ∧ (question env (deleteQuestion (getSelectedComboCount env)) = No)
  ∧ ((∃ w', onActionAddCombo env w = Some w'
     ∧ comboList w' = comboList w
     ∧ size (comboList w') = size (comboList w)
     ∧ heap w ⊆ heap w'
     ∧ ∃ shown, events w' = events w ++ shown ∧ Forall isPrompt shown)
  ∧ (∃ w', onActionDuplicateCombo env w = Some w'
     ∧ comboList w' = comboList w
     ∧ size (comboList w') = size (comboList w)
     ∧ heap w ⊆ heap w'
     ∧ ∃ shown, events w' = events w ++ shown ∧ Forall isPrompt shown)
  ∧ (∃ w', onActionEditCombo env w = Some w'
     ∧ comboList w' = comboList w
     ∧ size (comboList w') = size (comboList w)
     ∧ (heap w' = heap w
        ∨ ∃ combo c, combo ∈ comboList w ∧ heap w !! combo = Some c
            ∧ heap w' = <[combo := (ComboDialog_exec env c).2]> (heap w))
     ∧ ∃ shown, events w' = events w ++ shown ∧ Forall isPrompt shown)
  ∧ (∃ w', onActionDeleteCombo env w = Some w'
     ∧ comboList w' = comboList w
     ∧ size (comboList w') = size (comboList w)
     ∧ heap w' = heap w
     ∧ ∃ shown, events w' = events w ++ shown ∧ Forall isPrompt shown)).
Proof.
  intros env w.
  assert (wf w) as H1.
  { apply (bool_decide_unpack (wf _)). vm_compute. exact I. }
  assert ((∀ c, (ComboDialog_exec env c).1 = Rejected)) as H2.
  { intros c. reflexivity. }
  assert (question env (deleteQuestion (getSelectedComboCount env)) = No) as H3.
  { reflexivity. }
  split; [done|].
  split; [done|].
  split; [done|].
  exact (rejected_dialog_no_mutation env w H1 H2 H3).
Defined.

(** *** Saving *)

(** The add slot when the dialog is accepted. *)
Lemma onActionAddCombo_accepted env w :
  (ComboDialog_exec env (Combo_create env)).1 = Accepted →
  ∃ w', onActionAddCombo env w = Some w'
    ∧ comboList w' = comboList w ++ [fresh (dom (heap w))]
    ∧ heap w' = <[fresh (dom (heap w)) := (ComboDialog_exec env (Combo_create env)).2]> (heap w)
    ∧ events w'
      = events w ++ EvComboDialog (fresh (dom (heap w)))
          :: EvSave (records w') (saveComboListToFile env (records w')).1
          :: (if (saveComboListToFile env (records w')).1 then []
              else [EvCritical (saveComboListToFile env (records w')).2]).
Proof.
  intros Haccepted. eexists. split; [apply onActionAddCombo_run|].
  rewrite decide_True by done.
  rewrite saveOrReport_comboList, saveOrReport_heap, saveOrReport_events,
    saveOrReport_records.
  split_and!; [done|done|]. simpl. by rewrite <- app_assoc.
Qed.

(** The delete slot when the question is answered with Yes. *)
Lemma onActionDeleteCombo_saved env w :
  selectedRows env ≠ [] →
  question env (deleteQuestion (getSelectedComboCount env)) = Yes →
  NoDup (getSelectedComboIndexes env w) →
  ∃ w', onActionDeleteCombo env w = Some w'
    ∧ comboList w' = keepOthers (getSelectedComboIndexes env w) (comboList w)
    ∧ heap w' = heap w
    ∧ events w'
      = events w ++ EvQuestion (deleteQuestion (getSelectedComboCount env))
          :: EvSave (records w') (saveComboListToFile env (records w')).1
          :: (if (saveComboListToFile env (records w')).1 then []
              else [EvCritical (saveComboListToFile env (records w')).2]).
Proof.
  intros Hsel Hyes Hnd. eexists. split; [by apply onActionDeleteCombo_confirmed|].
  rewrite saveOrReport_comboList, saveOrReport_heap, saveOrReport_events,
    saveOrReport_records.
  split_and!; [done|done|]. simpl. by rewrite <- app_assoc.
Qed.

(** The edit slot when the dialog is accepted. *)
Lemma onActionEditCombo_accepted env w index :
  wf w →
  getSelectedComboIndexes env w = [index] →
  (∀ c, (ComboDialog_exec env c).1 = Accepted) →
  ∃ w' combo c, onActionEditCombo env w = Some w'
    ∧ comboList w !! Z.to_nat index = Some combo
    ∧ heap w !! combo = Some c
    ∧ comboList w' = comboList w
    ∧ heap w' = <[combo := markAsEdited env (ComboDialog_exec env c).2]> (heap w)
    ∧ events w'
      = events w ++ EvComboDialog combo
          :: EvSave (records w') (saveComboListToFile env (records w')).1
          :: (if (saveComboListToFile env (records w')).1 then []
              else [EvCritical (saveComboListToFile env (records w')).2]).
Proof.
  intros Hwf Hsel Haccepted.
  destruct (single_selection_record env w index Hwf Hsel)
    as (combo & c & Hr & Hcombo & Hc).
  eexists _, combo, c. split.
  { rewrite (onActionEditCombo_run env w index combo c) by done.
    by rewrite decide_True by apply Haccepted. }
  rewrite saveOrReport_comboList, saveOrReport_heap, saveOrReport_events,
    saveOrReport_records.
  split_and!; [done..|]. simpl. by rewrite <- app_assoc.
Qed.

(** C5. When [saveComboListToFile] reports a failure, the add, delete and
    edit slots still complete, and they leave the list and the records as the
    mutation made them: the appended entry, the erased entries and the edited
    record stay. The only trace of the failure is the error box with the
    message of the save operation, shown after the call. *)
Theorem save_failure_keeps_mutation (env : Env) (w : World) :
  wf w →
  (∀ c, (ComboDialog_exec env c).1 = Accepted) →
  question env (deleteQuestion (getSelectedComboCount env)) = Yes →
  (∀ saved, (saveComboListToFile env saved).1 = false) →
  (∃ w' combo, onActionAddCombo env w = Some w'
     ∧ comboList w' = comboList w ++ [combo]
     ∧ heap w' = <[combo := (ComboDialog_exec env (Combo_create env)).2]> (heap w)
     ∧ events w'
       = events w ++ [EvComboDialog combo; EvSave (records w') false;
                      EvCritical (saveComboListToFile env (records w')).2])
  ∧ (selectedRows env ≠ [] → NoDup (getSelectedComboIndexes env w) →
     ∃ w', onActionDeleteCombo env w = Some w'
       ∧ comboList w' = keepOthers (getSelectedComboIndexes env w) (comboList w)
       ∧ heap w' = heap w
       ∧ events w'
         = events w ++ [EvQuestion (deleteQuestion (getSelectedComboCount env));
                        EvSave (records w') false;
                        EvCritical (saveComboListToFile env (records w')).2])
  ∧ (∀ index, getSelectedComboIndexes env w = [index] →
     ∃ w' combo c, onActionEditCombo env w = Some w'
       ∧ comboList w !! Z.to_nat index = Some combo
       ∧ heap w !! combo = Some c
       ∧ comboList w' = comboList w
       ∧ heap w' = <[combo := markAsEdited env (ComboDialog_exec env c).2]> (heap w)
       ∧ events w'
         = events w ++ [EvComboDialog combo; EvSave (records w') false;
                        EvCritical (saveComboListToFile env (records w')).2]).
Proof.
  intros Hwf Haccepted Hyes Hfails. split_and!.
  - destruct (onActionAddCombo_accepted env w (Haccepted _))
      as (w' & Hrun & Hlist & Hheap & Hevents).
    exists w', (fresh (dom (heap w))).
    rewrite Hfails in Hevents. done.
  - intros Hsel Hnd.
    destruct (onActionDeleteCombo_saved env w Hsel Hyes Hnd)
      as (w' & Hrun & Hlist & Hheap & Hevents).
    exists w'. rewrite Hfails in Hevents. done.
  - intros index Hsel.
    destruct (onActionEditCombo_accepted env w index Hwf Hsel Haccepted)
      as (w' & combo & c & Hrun & Hcombo & Hc & Hlist & Hheap & Hevents).
    exists w', combo, c. rewrite Hfails in Hevents. done.
Qed.

Lemma save_failure_keeps_mutation_witness :
  let env := Samples.sampleEnv [1] Samples.reversed Accepted Yes false in
  let w := Samples.threeCombos in
  (wf w)
  ∧ ((∀ c, (ComboDialog_exec env c).1 = Accepted))
  ∧ (question env (deleteQuestion (getSelectedComboCount env)) = Yes)
  ∧ ((∀ saved, (saveComboListToFile env saved).1 = false))
  ∧ (selectedRows env ≠ [])
  ∧ (NoDup (getSelectedComboIndexes env w))
  ∧ (getSelectedComboIndexes env w = [1])
  ∧ ((∃ w' combo, onActionAddCombo env w = Some w'
     ∧ comboList w' = comboList w ++ [combo]
     ∧ heap w' = <[combo := (ComboDialog_exec env (Combo_create env)).2]> (heap w)
     ∧ events w'
       = events w ++ [EvComboDialog combo; EvSave (records w') false;
                      EvCritical (saveComboListToFile env (records w')).2])
  ∧ (selectedRows env ≠ [] → NoDup (getSelectedComboIndexes env w) →
     ∃ w', onActionDeleteCombo env w = Some w'
       ∧ comboList w' = keepOthers (getSelectedComboIndexes env w) (comboList w)
       ∧ heap w' = heap w
       ∧ events w'
         = events w ++ [EvQuestion (deleteQuestion (getSelectedComboCount env));
                        EvSave (records w') false;
                        EvCritical (saveComboListToFile env (records w')).2])
  ∧ (∀ index, getSelectedComboIndexes env w = [index] →
     ∃ w' combo c, onActionEditCombo env w = Some w'
       ∧ comboList w !! Z.to_nat index = Some combo
       ∧ heap w !! combo = Some c
       ∧ comboList w' = comboList w
       ∧ heap w' = <[combo := markAsEdited env (ComboDialog_exec env c).2]> (heap w)
       ∧ events w'
         = events w ++ [EvComboDialog combo; EvSave (records w') false;
                        EvCritical (saveComboListToFile env (records w')).2])).
Proof.
  intros env w.
  assert (wf w) as H1.
  { apply (bool_decide_unpack (wf _)). vm_compute. exact I. }
  assert ((∀ c, (ComboDialog_exec env c).1 = Accepted)) as H2.
  { intros c. reflexivity. }
  assert (question env (deleteQuestion (getSelectedComboCount env)) = Yes) as H3.
  { reflexivity. }
  assert ((∀ saved, (saveComboListToFile env saved).1 = false)) as H4.
  { intros saved. reflexivity. }
  split; [done|].
  split; [done|].
  split; [done|].
  split; [done|].
  split; [discriminate|].
  split; [apply (bool_decide_unpack (NoDup _)); vm_compute; exact I|].
  split; [reflexivity|].
  exact (save_failure_keeps_mutation env w H1 H2 H3 H4).
Defined.

(** C6. With the dialog accepted, the duplicate slot appends the clone and
    shows nothing but the dialog: [saveComboListToFile] is not called. The
    add, delete and edit slots call it once, after their mutation: the
    records handed to it are those the slot leaves. *)
Theorem duplicate_does_not_save (env : Env) (w : World) :
  wf w →
  (∀ c, (ComboDialog_exec env c).1 = Accepted) →
  question env (deleteQuestion (getSelectedComboCount env)) = Yes →
  (∀ index, getSelectedComboIndexes env w = [index] →
     ∃ w' combo, onActionDuplicateCombo env w = Some w'
       ∧ comboList w' = comboList w ++ [combo]
       ∧ events w' = events w ++ [EvComboDialog combo])
  ∧ (∃ w' combo ok rest, onActionAddCombo env w = Some w'
       ∧ comboList w' = comboList w ++ [combo]
       ∧ events w' = events w ++ EvComboDialog combo :: EvSave (records w') ok :: rest
       ∧ Forall (λ e, ∃ text, e = EvCritical text) rest)
  ∧ (selectedRows env ≠ [] → NoDup (getSelectedComboIndexes env w) →
     ∃ w' ok rest, onActionDeleteCombo env w = Some w'
       ∧ comboList w' = keepOthers (getSelectedComboIndexes env w) (comboList w)
       ∧ events w'
         = events w ++ EvQuestion (deleteQuestion (getSelectedComboCount env))
             :: EvSave (records w') ok :: rest
       ∧ Forall (λ e, ∃ text, e = EvCritical text) rest)
  ∧ (∀ index, getSelectedComboIndexes env w = [index] →
     ∃ w' combo c ok rest, onActionEditCombo env w = Some w'
       ∧ comboList w !! Z.to_nat index = Some combo
       ∧ heap w !! combo = Some c
       ∧ heap w' = <[combo := markAsEdited env (ComboDialog_exec env c).2]> (heap w)
       ∧ events w' = events w ++ EvComboDialog combo :: EvSave (records w') ok :: rest
       ∧ Forall (λ e, ∃ text, e = EvCritical text) rest).
Proof.
  intros Hwf Haccepted Hyes. split_and!.
  - intros index Hsel.
    destruct (single_selection_record env w index Hwf Hsel)
      as (original & c & Hr & Horiginal & Hc).
    eexists _, (fresh (dom (heap w))). split.
    { rewrite (onActionDuplicateCombo_run env w index original c) by done.
      by rewrite decide_True by apply Haccepted. }
    done.
  - destruct (onActionAddCombo_accepted env w (Haccepted _))
      as (w' & Hrun & Hlist & Hheap & Hevents).
    eexists w', _, _, _. split_and!; [done|done|exact Hevents|].
    destruct (saveComboListToFile env (records w')).1; repeat constructor. by eexists.
  - intros Hsel Hnd.
    destruct (onActionDeleteCombo_saved env w Hsel Hyes Hnd)
      as (w' & Hrun & Hlist & Hheap & Hevents).
    eexists w', _, _. split_and!; [done|done|exact Hevents|].
    destruct (saveComboListToFile env (records w')).1; repeat constructor. by eexists.
  - intros index Hsel.
    destruct (onActionEditCombo_accepted env w index Hwf Hsel Haccepted)
      as (w' & combo & c & Hrun & Hcombo & Hc & Hlist & Hheap & Hevents).
    eexists w', combo, c, _, _. split_and!; [done|done|done|done|exact Hevents|].
    destruct (saveComboListToFile env (records w')).1; repeat constructor. by eexists.
Qed.

Lemma duplicate_does_not_save_witness :
  let env := Samples.sampleEnv [1] Samples.reversed Accepted Yes true in
  let w := Samples.threeCombos in
  (wf w)
  ∧ ((∀ c, (ComboDialog_exec env c).1 = Accepted))
  ∧ (question env (deleteQuestion (getSelectedComboCount env)) = Yes)
  ∧ (selectedRows env ≠ [])
  ∧ (NoDup (getSelectedComboIndexes env w))
  ∧ (getSelectedComboIndexes env w = [1])
  ∧ ((∀ index, getSelectedComboIndexes env w = [index] →
     ∃ w' combo, onActionDuplicateCombo env w = Some w'
       ∧ comboList w' = comboList w ++ [combo]
       ∧ events w' = events w ++ [EvComboDialog combo])
  ∧ (∃ w' combo ok rest, onActionAddCombo env w = Some w'
       ∧ comboList w' = comboList w ++ [combo]
       ∧ events w' = events w ++ EvComboDialog combo :: EvSave (records w') ok :: rest
       ∧ Forall (λ e, ∃ text, e = EvCritical text) rest)
  ∧ (selectedRows env ≠ [] → NoDup (getSelectedComboIndexes env w) →
     ∃ w' ok rest, onActionDeleteCombo env w = Some w'
       ∧ comboList w' = keepOthers (getSelectedComboIndexes env w) (comboList w)
       ∧ events w'
         = events w ++ EvQuestion (deleteQuestion (getSelectedComboCount env))
             :: EvSave (records w') ok :: rest
       ∧ Forall (λ e, ∃ text, e = EvCritical text) rest)
  ∧ (∀ index, getSelectedComboIndexes env w = [index] →
     ∃ w' combo c ok rest, onActionEditCombo env w = Some w'
       ∧ comboList w !! Z.to_nat index = Some combo
       ∧ heap w !! combo = Some c
       ∧ heap w' = <[combo := markAsEdited env (ComboDialog_exec env c).2]> (heap w)
       ∧ events w' = events w ++ EvComboDialog combo :: EvSave (records w') ok :: rest
       ∧ Forall (λ e, ∃ text, e = EvCritical text) rest)).
Proof.
  intros env w.
  assert (wf w) as H1.
  { apply (bool_decide_unpack (wf _)). vm_compute. exact I. }
  assert ((∀ c, (ComboDialog_exec env c).1 = Accepted)) as H2.
  { intros c. reflexivity. }
  assert (question env (deleteQuestion (getSelectedComboCount env)) = Yes) as H3.
  { reflexivity. }
  split; [done|].
  split; [done|].
  split; [done|].
  split; [discriminate|].
  split; [apply (bool_decide_unpack (NoDup _)); vm_compute; exact I|].
  split; [reflexivity|].
  exact (duplicate_does_not_save env w H1 H2 H3).
Defined.

(** *** The guards of the slots *)

Lemma selectedIndexes_all_dropped env w :
  Forall (λ row, ¬ (0 ≤ mapToSource env row < size (comboList w))) (selectedRows env) →
  getSelectedComboIndexes env w = [].
Proof.
  unfold getSelectedComboIndexes. rewrite selectedIndexesFrom_filter.
  induction (selectedRows env) as [|row rows IH]; intros Hout; [done|].
  apply Forall_cons in Hout as [Hrow Hrows].
  rewrite fmap_cons, filter_cons_False by done. by apply IH.
Qed.

(** C10. The delete slot tests the number of selected display rows, the
    duplicate and edit slots test the number of source indexes that
    [getSelectedComboIndexes] returns. So when some row is selected and every
    selected row maps outside the valid source range, the delete slot passes
    its guard, asks its question and, answered with Yes, erases nothing (and
    still calls the save operation), whereas the duplicate and edit slots
    return at once without showing anything. *)
Theorem delete_guard_passes_on_dropped_rows (env : Env) (w : World) :
  selectedRows env ≠ [] →
  Forall (λ row, ¬ (0 ≤ mapToSource env row < size (comboList w))) (selectedRows env) →
  question env (deleteQuestion (getSelectedComboCount env)) = Yes →
  1 ≤ getSelectedComboCount env
  ∧ getSelectedComboIndexes env w = []
  ∧ (∃ w' ok rest, onActionDeleteCombo env w = Some w'
       ∧ comboList w' = comboList w
       ∧ heap w' = heap w
       ∧ events w'
         = events w ++ EvQuestion (deleteQuestion (getSelectedComboCount env))
             :: EvSave (records w) ok :: rest)
  ∧ onActionDuplicateCombo env w = Some w
  ∧ onActionEditCombo env w = Some w.
Proof.
  intros Hsel Hout Hyes.
  pose proof (selectedIndexes_all_dropped env w Hout) as Hnone.
  split_and!.
  - apply selectedRows_count in Hsel. lia.
  - done.
  - destruct (onActionDeleteCombo_saved env w Hsel Hyes)
      as (w' & Hrun & Hlist & Hheap & Hevents).
    { rewrite Hnone. constructor. }
    rewrite Hnone in Hlist. unfold keepOthers in Hlist.
    rewrite keepOthersFrom_all in Hlist by constructor.
    assert (records w' = records w) as Hrecords.
    { unfold records. by rewrite Hlist, Hheap. }
    rewrite Hrecords in Hevents.
    by eexists w', _, _.
  - apply onActionDuplicateCombo_guard. by rewrite Hnone.
  - apply onActionEditCombo_guard. by rewrite Hnone.
Qed.

Lemma delete_guard_passes_on_dropped_rows_witness :
  let env := Samples.sampleEnv [0; 1] Samples.unmapped Accepted Yes true in
  let w := Samples.threeCombos in
  (selectedRows env ≠ [])
  ∧ (Forall (λ row, ¬ (0 ≤ mapToSource env row < size (comboList w))) (selectedRows env))
  ∧ (question env (deleteQuestion (getSelectedComboCount env)) = Yes)
  ∧ (1 ≤ getSelectedComboCount env
  ∧ getSelectedComboIndexes env w = []
  ∧ (∃ w' ok rest, onActionDeleteCombo env w = Some w'
       ∧ comboList w' = comboList w
       ∧ heap w' = heap w
       ∧ events w'
         = events w ++ EvQuestion (deleteQuestion (getSelectedComboCount env))
             :: EvSave (records w) ok :: rest)
  ∧ onActionDuplicateCombo env w = Some w
  ∧ onActionEditCombo env w = Some w).
Proof.
  intros env w.
  assert (selectedRows env ≠ []) as H1.
  { discriminate. }
  assert (Forall (λ row, ¬ (0 ≤ mapToSource env row < size (comboList w))) (selectedRows env)) as H2.
  { apply (bool_decide_unpack (Forall _ _)). vm_compute. exact I. }
  assert (question env (deleteQuestion (getSelectedComboCount env)) = Yes) as H3.
  { reflexivity. }
  split; [done|].
  split; [done|].
  split; [done|].
  exact (delete_guard_passes_on_dropped_rows env w H1 H2 H3).
Defined.

(** *** Every handle of the list keeps a record *)

Lemma wf_grows w w' :
  comboList w' = comboList w →
  (∀ combo, is_Some (heap w !! combo) → is_Some (heap w' !! combo)) →
  wf w → wf w'.
Proof.
  unfold wf. intros -> Hheap Hwf.
  eapply Forall_impl; [exact Hwf|]. exact Hheap.
Qed.

Lemma wf_saveOrReport env w : wf w → wf (saveOrReport env w).
Proof.
  apply wf_grows; [apply saveOrReport_comboList|].
  by rewrite saveOrReport_heap.
Qed.

Lemma wf_insert combo c w :
  wf w → wf (mkWorld (<[combo := c]> (heap w)) (comboList w) (events w)).
Proof.
  apply wf_grows; [done|]. simpl. intros other Hother.
  rewrite lookup_insert. by case_decide.
Qed.

Lemma wf_append combo c es (w : World) :
  wf w → wf (mkWorld (<[combo := c]> (heap w)) (comboList w ++ [combo]) es).
Proof.
  unfold wf. simpl. intros Hwf. apply Forall_app. split.
  - eapply Forall_impl; [exact Hwf|]. simpl. intros other Hother.
    rewrite lookup_insert. by case_decide.
  - constructor; [|constructor]. by rewrite lookup_insert_eq.
Qed.

Lemma eraseEach_sublist indexes w w' :
  eraseEach indexes w = Some w' →
  heap w' = heap w ∧ comboList w' `sublist_of` comboList w.
Proof.
  revert w. induction indexes as [|index rest IH]; intros w Heq; simpl in Heq.
  - by injection Heq as <-.
  - unfold eraseCombo, erase in Heq. case_bool_decide; [|done]. simpl in Heq.
    apply IH in Heq as [Hheap Hsub]. simpl in *. split; [done|].
    etrans; [exact Hsub|]. apply sublist_delete.
Qed.

Lemma wf_onActionAddCombo env w w' :
  wf w → onActionAddCombo env w = Some w' → wf w'.
Proof.
  intros Hwf. rewrite onActionAddCombo_run. intros [= <-].
  case_decide.
  - apply wf_saveOrReport. by apply wf_append.
  - by apply wf_insert.
Qed.

Lemma wf_onActionDuplicateCombo env w w' :
  wf w → onActionDuplicateCombo env w = Some w' → wf w'.
Proof.
  intros Hwf.
  destruct (decide (length (getSelectedComboIndexes env w) = 1%nat)) as [Hone|Hnot].
  - destruct (getSelectedComboIndexes env w) as [|index [|]] eqn:Hsel; try done.
    destruct (single_selection_record env w index Hwf Hsel)
      as (original & c & Hr & Horiginal & Hc).
    rewrite (onActionDuplicateCombo_run env w index original c) by done.
    intros [= <-]. case_decide.
    + by apply wf_append.
    + by apply wf_insert.
  - rewrite onActionDuplicateCombo_guard by done. by intros [= <-].
Qed.

Lemma wf_onActionEditCombo env w w' :
  wf w → onActionEditCombo env w = Some w' → wf w'.
Proof.
  intros Hwf.
  destruct (decide (length (getSelectedComboIndexes env w) = 1%nat)) as [Hone|Hnot].
  - destruct (getSelectedComboIndexes env w) as [|index [|]] eqn:Hsel; try done.
    destruct (single_selection_record env w index Hwf Hsel)
      as (combo & c & Hr & Hcombo & Hc).
    rewrite (onActionEditCombo_run env w index combo c) by done.
    intros [= <-]. case_decide.
    + apply wf_saveOrReport.
      by apply (wf_insert combo _ (mkWorld (heap w) (comboList w) _)).
    + by apply wf_insert.
  - rewrite onActionEditCombo_guard by done. by intros [= <-].
Qed.

Lemma wf_onActionDeleteCombo env w w' :
  wf w → onActionDeleteCombo env w = Some w' → wf w'.
Proof.
  intros Hwf. unfold onActionDeleteCombo. cbv zeta.
  destruct (getSelectedComboCount env <? 1); [by intros [= <-]|].
  case_bool_decide; [by intros [= <-]|].
  destruct (eraseEach _ _) as [erased|] eqn:Herase; [|done].
  simpl. intros [= <-]. apply wf_saveOrReport.
  apply eraseEach_sublist in Herase as [Hheap Hsub]. simpl in *.
  unfold wf in *. rewrite Hheap. rewrite Forall_forall in Hwf.
  apply Forall_forall. intros combo Hcombo. apply Hwf.
  by eapply elem_of_sublist.
Qed.

Lemma wf_runSlot slot env w w' : wf w → runSlot slot env w = Some w' → wf w'.
Proof.
  destruct slot; simpl.
  - apply wf_onActionAddCombo.
  - apply wf_onActionDuplicateCombo.
  - apply wf_onActionDeleteCombo.
  - apply wf_onActionEditCombo.
Qed.

Lemma wf_runSlots session w w' : wf w → runSlots session w = Some w' → wf w'.
Proof.
  revert w. induction session as [|[slot env] rest IH]; intros w Hwf; simpl.
  - by intros [= <-].
  - destruct (runSlot slot env w) as [next|] eqn:Hnext; [|done]. simpl.
    apply IH. by eapply wf_runSlot.
Qed.

(** After any session that started with the empty list, every index that
    [getSelectedComboIndexes] returns designates an entry of the list that
    has a record. *)
Lemma session_selected_indexes_have_records session env w :
  runSlots session emptyWorld = Some w →
  Forall (λ index, ∃ combo c, at_index (comboList w) index = Some combo
                              ∧ heap w !! combo = Some c)
         (getSelectedComboIndexes env w).
Proof.
  intros Hrun.
  assert (wf w) as Hwf by (eapply wf_runSlots; [|exact Hrun]; constructor).
  eapply Forall_impl; [apply selectedIndexes_in_range|].
  intros index Hr. simpl in Hr.
  destruct (at_index_in_range _ _ Hr) as [combo Hcombo].
  exists combo. unfold wf in Hwf. rewrite Forall_forall in Hwf.
  destruct (Hwf combo) as [c Hc]; [|by exists c].
  rewrite at_index_lookup in Hcombo by done. by eapply list_elem_of_lookup_2.
Qed.

End ComboTableFrameFacts.

(** ** The preferences *)

Module PreferencesManagerFacts.
Import PreferencesManager.

(** Reading leaves the store as it is. *)
Lemma value_reads key defaultValue (settings : gmap string QVariant) :
  value key defaultValue settings = (default defaultValue (settings !! key), settings).
Proof. reflexivity. Qed.

Lemma getAutoStartAtLogin_reads (settings : gmap string QVariant) :
  getAutoStartAtLogin settings
  = (toBool (default (VBool kDefaultvalueAutoStartAtLogin)
                     (settings !! kKeyAutoStartAtLogin)), settings).
Proof. reflexivity. Qed.

Lemma getPlaySoundOnCombo_reads (settings : gmap string QVariant) :
  getPlaySoundOnCombo settings
  = (toBool (default (VBool kDefaultValuePlaySoundOnCombo)
                     (settings !! kKeyPlaySoundOnCombo)), settings).
Proof. reflexivity. Qed.

Lemma mainWindowGeometry_reads (settings : gmap string QVariant) :
  mainWindowGeometry settings
  = (toByteArray (default Invalid (settings !! kKeyGeometry)), settings).
Proof. reflexivity. Qed.

Lemma getInstalledApplicationPath_reads sep (settings : gmap string QVariant) :
  getInstalledApplicationPath sep settings
  = (match settings !! kKeyAppExePath with
     | Some v => fromNativeSeparators sep (toString v)
     | None => ""
     end, settings).
Proof.
  unfold getInstalledApplicationPath, contains, value, mbind, Op_bind, mret, Op_ret.
  destruct (settings !! kKeyAppExePath) eqn:Hv; simpl; by rewrite ?Hv.
Qed.

Lemma reset_writes (settings : gmap string QVariant) :
  reset settings
  = ((), <[kKeyAutoStartAtLogin := VBool false]>
           (<[kKeyPlaySoundOnCombo := VBool true]> settings)).
Proof. reflexivity. Qed.

(** C7. Whatever the store holds, after [reset] the preference
    PlaySoundOnCombo reads true and AutoStartAtLogin reads false, and every
    other entry of the store, Geometry and AppExePath among them, is as it was,
    so [mainWindowGeometry] and [getInstalledApplicationPath] answer as
    before. *)
Theorem reset_restores_defaults (settings : gmap string QVariant) :
  (getPlaySoundOnCombo (reset settings).2).1 = true
  ∧ (getAutoStartAtLogin (reset settings).2).1 = false
  ∧ (reset settings).2 !! kKeyGeometry = settings !! kKeyGeometry
  ∧ (reset settings).2 !! kKeyAppExePath = settings !! kKeyAppExePath
  ∧ (mainWindowGeometry (reset settings).2).1 = (mainWindowGeometry settings).1
  ∧ (∀ sep, (getInstalledApplicationPath sep (reset settings).2).1
            = (getInstalledApplicationPath sep settings).1)
  ∧ (∀ key, key ≠ kKeyPlaySoundOnCombo → key ≠ kKeyAutoStartAtLogin →
            (reset settings).2 !! key = settings !! key).
Proof.
  assert (∀ key, key ≠ kKeyPlaySoundOnCombo → key ≠ kKeyAutoStartAtLogin →
            (reset settings).2 !! key = settings !! key) as Hother.
  { intros key Hsound Hstart. rewrite reset_writes. simpl.
    by rewrite !lookup_insert_ne. }
  assert ((reset settings).2 !! kKeyGeometry = settings !! kKeyGeometry) as Hgeometry
    by (by apply Hother).
  assert ((reset settings).2 !! kKeyAppExePath = settings !! kKeyAppExePath) as Hpath
    by (by apply Hother).
  split_and!; try done.
  - rewrite getPlaySoundOnCombo_reads, reset_writes. simpl.
    rewrite lookup_insert_ne by done. by rewrite lookup_insert_eq.
  - rewrite getAutoStartAtLogin_reads, reset_writes. simpl.
    by rewrite lookup_insert_eq.
  - by rewrite !mainWindowGeometry_reads, Hgeometry.
  - intros sep. by rewrite !getInstalledApplicationPath_reads, Hpath.
Qed.

(** C8. In a store where the keys AutoStartAtLogin and PlaySoundOnCombo are
    not set, as in a fresh store, [getAutoStartAtLogin] returns false and
    [getPlaySoundOnCombo] returns true, and both leave the store as it is. *)
Theorem getters_default_when_unset (settings : gmap string QVariant) :
  settings !! kKeyAutoStartAtLogin = None →
  settings !! kKeyPlaySoundOnCombo = None →
  getAutoStartAtLogin settings = (false, settings)
  ∧ getPlaySoundOnCombo settings = (true, settings).
Proof.
  intros Hstart Hsound.
  by rewrite getAutoStartAtLogin_reads, getPlaySoundOnCombo_reads, Hstart, Hsound.
Qed.

Lemma getters_default_when_unset_witness :
  (∅ : gmap string QVariant) !! kKeyAutoStartAtLogin = None
  ∧ (∅ : gmap string QVariant) !! kKeyPlaySoundOnCombo = None
  ∧ getAutoStartAtLogin ∅ = (false, ∅)
  ∧ getPlaySoundOnCombo ∅ = (true, ∅).
Proof.
  split; [reflexivity|]. split; [reflexivity|].
  apply (getters_default_when_unset ∅); reflexivity.
Defined.

Lemma fromNativeSeparators_chars sep pathName :
  String.list_ascii_of_string (fromNativeSeparators sep pathName)
  = (λ c, if bool_decide (c = sep) then "/"%char else c)
      <$> String.list_ascii_of_string pathName.
Proof. induction pathName as [|c rest IH]; simpl; [done|]. by rewrite IH. Qed.

Lemma fromNativeSeparators_no_native sep pathName :
  sep ≠ "/"%char → sep ∉ String.list_ascii_of_string (fromNativeSeparators sep pathName).
Proof.
  intros Hsep. rewrite fromNativeSeparators_chars.
  intros (c & Heq & _)%list_elem_of_fmap. case_bool_decide; congruence.
Qed.

(** C9. [getInstalledApplicationPath] returns the empty string when the key
    AppExePath is not set. When it is set, it returns the stored value as a
    string with every native separator replaced by a slash: the other
    characters are kept, and no native separator other than the slash is
    left. In both cases the store is left as it is. *)
Theorem getInstalledApplicationPath_normalized (sep : ascii)
    (settings : gmap string QVariant) :
  (settings !! kKeyAppExePath = None →
     (getInstalledApplicationPath sep settings).1 = "")
  ∧ (∀ v, settings !! kKeyAppExePath = Some v →
     (getInstalledApplicationPath sep settings).1 = fromNativeSeparators sep (toString v)
     ∧ String.list_ascii_of_string (getInstalledApplicationPath sep settings).1
       = (λ c, if bool_decide (c = sep) then "/"%char else c)
           <$> String.list_ascii_of_string (toString v)
     ∧ (sep ≠ "/"%char →
        sep ∉ String.list_ascii_of_string (getInstalledApplicationPath sep settings).1))
  ∧ (getInstalledApplicationPath sep settings).2 = settings.
Proof.
  rewrite getInstalledApplicationPath_reads. simpl. split_and!.
  - by intros ->.
  - intros v ->. split_and!; [done|apply fromNativeSeparators_chars|].
    apply fromNativeSeparators_no_native.
  - done.
Qed.

Lemma getInstalledApplicationPath_normalized_witness :
  installedSettings !! kKeyAppExePath
    = Some (VString "C:\Program Files\Beeftext\Beeftext.exe")
  ∧ (getInstalledApplicationPath "\" installedSettings).1
    = "C:/Program Files/Beeftext/Beeftext.exe"
  ∧ (getInstalledApplicationPath "\" installedSettings).2 = installedSettings
  ∧ (getInstalledApplicationPath "\" ∅).1 = "".
Proof.
  destruct (getInstalledApplicationPath_normalized "\" installedSettings)
    as (_ & Hset & Hstore).
  destruct (getInstalledApplicationPath_normalized "\" ∅) as (Hunset & _ & _).
  destruct (Hset _ eq_refl) as (Hpath & _ & _).
  split; [reflexivity|]. split; [exact Hpath|]. split; [exact Hstore|].
  apply Hunset. reflexivity.
Defined.

End PreferencesManagerFacts.

(** ** The selection, the buttons and the slots *)

Module ComboTableFrameViewFacts.
Import ComboModel Std StdFacts ComboTableFrame ComboTableFrameFacts ComboTableFrameView.

Lemma length_filter_all {A} (P : A → Prop) `{∀ x, Decision (P x)} (l : list A) :
  length (filter P l) = length l ↔ Forall P l.
Proof.
  induction l as [|x l IH]; [by split|].
  pose proof (length_filter P l) as Hle.
  destruct (decide (P x)) as [Hx|Hx].
  - rewrite filter_cons_True by done. simpl. rewrite Forall_cons.
    split; [intros [= Heq]; split; [done|by apply IH] | intros [_ Hall]; f_equal; by apply IH].
  - rewrite filter_cons_False by done. simpl. rewrite Forall_cons.
    split; [lia | by intros [? _]].
Qed.

(** X1. [getSelectedComboIndexes] never returns more indexes than rows are
    selected, and it returns as many exactly when no selected row maps
    outside the list. *)
Theorem selected_indexes_count (env : Env) (w : World) :
  Z.of_nat (length (getSelectedComboIndexes env w)) ≤ getSelectedComboCount env
  ∧ (Z.of_nat (length (getSelectedComboIndexes env w)) = getSelectedComboCount env
     ↔ Forall (λ row, 0 ≤ mapToSource env row < size (comboList w))
              (selectedRows env)).
Proof.
  unfold getSelectedComboIndexes, getSelectedComboCount.
  rewrite selectedIndexesFrom_filter.
  pose proof (length_filter (λ index, 0 ≤ index < size (comboList w))
                (mapToSource env <$> selectedRows env)) as Hle.
  rewrite length_fmap in Hle. split; [lia|].
  rewrite Nat2Z.inj_iff.
  rewrite <- (length_fmap (mapToSource env) (selectedRows env)).
  rewrite length_filter_all, Forall_fmap. done.
Qed.



Lemma eraseEach_events indexes w w' :
  eraseEach indexes w = Some w' → events w' = events w.
Proof.
  revert w. induction indexes as [|index rest IH]; intros w Heq; simpl in Heq.
  - by injection Heq as <-.
  - unfold eraseCombo, erase in Heq. case_bool_decide; [|done]. simpl in Heq.
    by apply IH in Heq.
Qed.

Lemma more_events_differs (w w' : World) shown :
  events w' = events w ++ shown → shown ≠ [] → Some w' ≠ Some w.
Proof.
  intros Hevents Hshown [= ->]. apply Hshown.
  apply (f_equal length) in Hevents. rewrite length_app in Hevents.
  destruct shown; [done|]. simpl in Hevents. lia.
Qed.

(** X3. The delete button and action are enabled exactly when the delete
    slot passes its guard: when they are disabled the slot returns at once
    with nothing changed and nothing shown, and when they are enabled the
    slot never leaves the world as it was, since the first thing it does is
    to show its question. *)
Theorem delete_enabled_iff_slot_acts (env : Env) (w : World) (ui : Widgets) :
  actionDeleteCombo (updateGui env ui) = buttonDeleteCombo (updateGui env ui)
  ∧ if buttonDeleteCombo (updateGui env ui)
    then onActionDeleteCombo env w ≠ Some w
         ∧ ∀ w', onActionDeleteCombo env w = Some w' →
             ∃ shown, events w'
               = events w ++ EvQuestion (deleteQuestion (getSelectedComboCount env))
                   :: shown
    else onActionDeleteCombo env w = Some w.
Proof.
  split; [done|]. unfold updateGui, onActionDeleteCombo. cbv zeta.
  cbn [buttonDeleteCombo].
  destruct (Z.ltb_spec (getSelectedComboCount env) 1) as [Hnone|Hsome].
  - by replace (getSelectedComboCount env >? 0) with false by lia.
  - replace (getSelectedComboCount env >? 0) with true by lia.
    case_bool_decide.
    + split; [eapply more_events_differs; [reflexivity|done]|].
      intros w' [= <-]. by exists [].
    + destruct (eraseEach _ _) as [erased|] eqn:Herase; [|done]. simpl.
      apply eraseEach_events in Herase. simpl in Herase.
      assert (events (saveOrReport env erased)
              = events w ++ EvQuestion (deleteQuestion (getSelectedComboCount env))
                  :: EvSave (records erased) (saveComboListToFile env (records erased)).1
                  :: (if (saveComboListToFile env (records erased)).1 then []
                      else [EvCritical (saveComboListToFile env (records erased)).2]))
        as Hevents.
      { rewrite saveOrReport_events, Herase, <- app_assoc. reflexivity. }
      split; [eapply more_events_differs; [exact Hevents|done]|].
      intros w' [= <-]. by eexists.
Qed.

(** X4. When every selected row maps into the list, the duplicate and edit
    buttons are enabled exactly when their slots pass their guard: enabled,
    the slot shows its dialog on the selected record (duplicate: on its
    clone); disabled, the slot returns at once with nothing changed and
    nothing shown. *)
Theorem duplicate_edit_enabled_iff_slot_acts (env : Env) (w : World) (ui : Widgets) :
  wf w →
  Forall (λ row, 0 ≤ mapToSource env row < size (comboList w)) (selectedRows env) →
  (if buttonDuplicateCombo (updateGui env ui)
   then ∃ w' combo shown, onActionDuplicateCombo env w = Some w'
          ∧ events w' = events w ++ EvComboDialog combo :: shown
   else onActionDuplicateCombo env w = Some w)
  ∧ (if buttonEditCombo (updateGui env ui)
     then ∃ w' combo shown, onActionEditCombo env w = Some w'
            ∧ events w' = events w ++ EvComboDialog combo :: shown
     else onActionEditCombo env w = Some w).
Proof.
  intros Hwf Hrange.
  assert (Z.of_nat (length (getSelectedComboIndexes env w)) = getSelectedComboCount env)
    as Hcount.
  { unfold getSelectedComboIndexes, getSelectedComboCount.
    rewrite selectedIndexesFrom_filter.
    rewrite <- (length_fmap (mapToSource env) (selectedRows env)).
    f_equal. apply length_filter_all. by apply Forall_fmap. }
  unfold updateGui. cbv zeta. cbn [buttonDuplicateCombo buttonEditCombo].
  rewrite <- Hcount.
  destruct (decide (length (getSelectedComboIndexes env w) = 1%nat)) as [Hone|Hnot].
  - rewrite Hone. change (1 =? Z.of_nat 1) with true.
    destruct (getSelectedComboIndexes env w) as [|index [|]] eqn:Hsel; try done.
    destruct (single_selection_record env w index Hwf Hsel)
      as (combo & c & Hr & Hcombo & Hc).
    split.
    + rewrite (onActionDuplicateCombo_run env w index combo c) by done.
      eexists _, _, _. split; [done|]. case_decide; reflexivity.
    + rewrite (onActionEditCombo_run env w index combo c) by done.
      case_decide.
      * eexists _, _, _. split; [done|].
        rewrite saveOrReport_events. simpl. rewrite <- app_assoc. reflexivity.
      * eexists _, _, _. split; [done|]. reflexivity.
  - replace (1 =? Z.of_nat (length (getSelectedComboIndexes env w))) with false by lia.
    by rewrite onActionDuplicateCombo_guard, onActionEditCombo_guard by done.
Qed.

Lemma duplicate_edit_enabled_iff_slot_acts_witness :
  let env := Samples.sampleEnv [1] Samples.reversed Rejected No true in
  let w := Samples.threeCombos in
  let ui := mkWidgets false false false false false false in
  wf w
  ∧ Forall (λ row, 0 ≤ mapToSource env row < size (comboList w)) (selectedRows env)
  ∧ buttonDuplicateCombo (updateGui env ui) = true
  ∧ (if buttonDuplicateCombo (updateGui env ui)
     then ∃ w' combo shown, onActionDuplicateCombo env w = Some w'
            ∧ events w' = events w ++ EvComboDialog combo :: shown
     else onActionDuplicateCombo env w = Some w)
  ∧ (if buttonEditCombo (updateGui env ui)
     then ∃ w' combo shown, onActionEditCombo env w = Some w'
            ∧ events w' = events w ++ EvComboDialog combo :: shown
     else onActionEditCombo env w = Some w).
Proof.
  intros env w ui.
  assert (wf w) as H1.
  { apply (bool_decide_unpack (wf _)). vm_compute. exact I. }
  assert (Forall (λ row, 0 ≤ mapToSource env row < size (comboList w))
                 (selectedRows env)) as H2.
  { apply (bool_decide_unpack (Forall _ _)). vm_compute. exact I. }
  split; [exact H1|]. split; [exact H2|]. split; [reflexivity|].
  exact (duplicate_edit_enabled_iff_slot_acts env w ui H1 H2).
Defined.

(** X5. After [onActionDeselectAll] the six buttons and actions are disabled
    by [updateGui], and the duplicate, delete and edit slots return at once:
    they change nothing and show nothing. *)
Theorem deselect_all_disables_slots (env : Env) (w : World) (ui : Widgets) :
  updateGui (onActionDeselectAll env) ui = mkWidgets false false false false false false
  ∧ getSelectedComboCount (onActionDeselectAll env) = 0
  ∧ getSelectedComboIndexes (onActionDeselectAll env) w = []
  ∧ onActionDuplicateCombo (onActionDeselectAll env) w = Some w
  ∧ onActionDeleteCombo (onActionDeselectAll env) w = Some w
  ∧ onActionEditCombo (onActionDeselectAll env) w = Some w.
Proof. done. Qed.

End ComboTableFrameViewFacts.

(** ** The slots one after the other *)

Module ComboTableFrameSessionFacts.
Import ComboModel Std StdFacts ComboTableFrame ComboTableFrameFacts ComboTableFrameView.

Lemma length_keepOthersFrom {A} position indexes (l : list A) :
  (length (keepOthersFrom position indexes l) ≤ length l)%nat.
Proof.
  revert position. induction l as [|x l IH]; intros position; simpl; [done|].
  specialize (IH (position + 1)). case_bool_decide; simpl; lia.
Qed.

Lemma selectedRows_nonempty env :
  (getSelectedComboCount env <? 1) = false → selectedRows env ≠ [].
Proof.
  unfold getSelectedComboCount. intros Hcount Hnil. rewrite Hnil in Hcount.
  simpl in Hcount. done.
Qed.

(** Each slot on a well-formed world with distinct selected indexes. *)
Lemma runSlot_completes (slot : Slot) (env : Env) (w : World) :
  wf w →
  NoDup (getSelectedComboIndexes env w) →
  ∃ w', runSlot slot env w = Some w'
    ∧ wf w'
    ∧ match slot with
      | Add | Duplicate =>
          comboList w' = comboList w ∨ ∃ combo, comboList w' = comboList w ++ [combo]
      | Edit => comboList w' = comboList w
      | Delete =>
          comboList w' = comboList w
          ∨ comboList w' = keepOthers (getSelectedComboIndexes env w) (comboList w)
      end.
Proof.
  intros Hwf Hnd.
  assert (∀ w', runSlot slot env w = Some w' → wf w') as Hkeeps.
  { intros w'. by apply wf_runSlot. }
  destruct slot; simpl in *.
  - rewrite onActionAddCombo_run in *. eexists. split; [done|].
    split; [by apply Hkeeps|].
    case_decide; [right|left]; [|done].
    rewrite saveOrReport_comboList. by eexists.
  - destruct (decide (length (getSelectedComboIndexes env w) = 1%nat)) as [Hone|Hnot].
    + destruct (getSelectedComboIndexes env w) as [|index [|]] eqn:Hsel; try done.
      destruct (single_selection_record env w index Hwf Hsel)
        as (original & c & Hr & Horiginal & Hc).
      rewrite (onActionDuplicateCombo_run env w index original c) in * by done.
      eexists. split; [done|]. split; [by apply Hkeeps|].
      case_decide; [right|left]; [|done]. by eexists.
    + rewrite onActionDuplicateCombo_guard in * by done.
      exists w. split_and!; [done|done|by left].
  - destruct (getSelectedComboCount env <? 1) eqn:Hcount.
    + exists w. unfold onActionDeleteCombo. cbv zeta. rewrite Hcount.
      split_and!; [done|done|by left].
    + destruct (decide (question env (deleteQuestion (getSelectedComboCount env)) = Yes))
        as [Hyes|Hno].
      * rewrite onActionDeleteCombo_confirmed in *
          by (done || by apply selectedRows_nonempty).
        eexists. split; [done|]. split; [by apply Hkeeps|].
        right. by rewrite saveOrReport_comboList.
      * rewrite onActionDeleteCombo_declined in * by done. rewrite Hcount in *.
        eexists. split; [done|]. split; [by apply Hkeeps|]. by left.
  - destruct (decide (length (getSelectedComboIndexes env w) = 1%nat)) as [Hone|Hnot].
    + destruct (getSelectedComboIndexes env w) as [|index [|]] eqn:Hsel; try done.
      destruct (single_selection_record env w index Hwf Hsel)
        as (combo & c & Hr & Hcombo & Hc).
      rewrite (onActionEditCombo_run env w index combo c) in * by done.
      eexists. split; [done|]. split; [by apply Hkeeps|].
      case_decide; [|done]. by rewrite saveOrReport_comboList.
    + rewrite onActionEditCombo_guard in * by done.
      exists w. by split_and!.
Qed.

(** X6. In a well-formed world with distinct selected indexes every slot
    runs to its end: no [Q_ASSERT] fails and no index is out of range. It
    leaves a well-formed world, and the list is either as it was or, for add
    and duplicate, longer by one entry at its end, for delete, without the
    selected entries; edit never changes the list. *)
Theorem slot_completes (slot : Slot) (env : Env) (w : World) :
  wf w →
  NoDup (getSelectedComboIndexes env w) →
  ∃ w', runSlot slot env w = Some w'
    ∧ wf w'
    ∧ match slot with
      | Add | Duplicate =>
          comboList w' = comboList w ∨ ∃ combo, comboList w' = comboList w ++ [combo]
      | Edit => comboList w' = comboList w
      | Delete =>
          comboList w' = comboList w
          ∨ comboList w' = keepOthers (getSelectedComboIndexes env w) (comboList w)
      end.
Proof. exact (runSlot_completes slot env w). Qed.

Lemma slot_completes_witness :
  let env := Samples.sampleEnv [2; 0] Samples.reversed Accepted Yes true in
  let w := Samples.threeCombos in
  wf w
  ∧ NoDup (getSelectedComboIndexes env w)
  ∧ ∃ w', runSlot Delete env w = Some w'
      ∧ wf w'
      ∧ (comboList w' = comboList w
         ∨ comboList w' = keepOthers (getSelectedComboIndexes env w) (comboList w)).
Proof.
  intros env w.
  assert (wf w) as H1.
  { apply (bool_decide_unpack (wf _)). vm_compute. exact I. }
  assert (NoDup (getSelectedComboIndexes env w)) as H2.
  { apply (bool_decide_unpack (NoDup _)). vm_compute. exact I. }
  split; [exact H1|]. split; [exact H2|].
  exact (slot_completes Delete env w H1 H2).
Defined.

Lemma slot_size_bound slot env w w' :
  match slot with
  | Add | Duplicate =>
      comboList w' = comboList w ∨ ∃ combo, comboList w' = comboList w ++ [combo]
  | Edit => comboList w' = comboList w
  | Delete =>
      comboList w' = comboList w
      ∨ comboList w' = keepOthers (getSelectedComboIndexes env w) (comboList w)
  end →
  size (comboList w') ≤ size (comboList w) + (if appends slot then 1 else 0).
Proof.
  unfold size.
  destruct slot; simpl; intros Hlist.
  - destruct Hlist as [->|[combo ->]]; [lia|]. rewrite length_app. simpl. lia.
  - destruct Hlist as [->|[combo ->]]; [lia|]. rewrite length_app. simpl. lia.
  - destruct Hlist as [->| ->]; [lia|].
    pose proof (length_keepOthersFrom 0 (getSelectedComboIndexes env w) (comboList w)).
    unfold keepOthers. lia.
  - rewrite Hlist. lia.
Qed.

Lemma countAppends_cons slot env session :
  countAppends ((slot, env) :: session)
  = (if appends slot then 1 else 0) + countAppends session.
Proof.
  unfold countAppends. destruct (appends slot) eqn:Happends.
  - rewrite filter_cons_True by done. rewrite length_cons. lia.
  - rewrite filter_cons_False by (simpl; congruence). lia.
Qed.

(** X7. A session in which every selection maps to distinct source rows
    runs to its end from any well-formed world, the empty list included: no
    slot fails, the world stays well formed, and the list has grown by at
    most the number of add and duplicate slots of the session. *)
Theorem session_completes (session : list (Slot * Env)) (w : World) :
  wf w →
  Forall (λ step, NoDup (mapToSource step.2 <$> selectedRows step.2)) session →
  ∃ w', runSlots session w = Some w'
    ∧ wf w'
    ∧ size (comboList w') ≤ size (comboList w) + countAppends session.
Proof.
  revert w. induction session as [|[slot env] rest IH]; intros w Hwf Hdistinct.
  - exists w. split_and!; [done|done|]. unfold countAppends. simpl. lia.
  - apply Forall_cons in Hdistinct as [Hstep Hrest]. simpl in Hstep.
    destruct (runSlot_completes slot env w Hwf) as (next & Hnext & Hwfnext & Hlist).
    { unfold getSelectedComboIndexes. rewrite selectedIndexesFrom_filter.
      by apply NoDup_filter. }
    destruct (IH next Hwfnext Hrest) as (w' & Hrun & Hwf' & Hsize).
    exists w'. simpl. rewrite Hnext. simpl. split_and!; [done|done|].
    pose proof (slot_size_bound slot env w next Hlist).
    rewrite countAppends_cons. lia.
Qed.

Lemma session_completes_witness :
  let adding := Samples.sampleEnv [] Samples.reversed Accepted Yes true in
  let choosing := Samples.sampleEnv [1; 0] (λ row, row) Accepted Yes false in
  let session := [(Add, adding); (Add, adding); (Duplicate, choosing);
                  (Edit, choosing); (Delete, choosing)] in
  wf emptyWorld
  ∧ Forall (λ step, NoDup (mapToSource step.2 <$> selectedRows step.2)) session
  ∧ ∃ w', runSlots session emptyWorld = Some w'
      ∧ wf w'
      ∧ size (comboList w') ≤ size (comboList emptyWorld) + countAppends session.
Proof.
  intros adding choosing session.
  assert (wf emptyWorld) as H1.
  { apply (bool_decide_unpack (wf _)). vm_compute. exact I. }
  assert (Forall (λ step, NoDup (mapToSource step.2 <$> selectedRows step.2)) session)
    as H2.
  { apply (bool_decide_unpack (Forall _ _)). vm_compute. exact I. }
  split; [exact H1|]. split; [exact H2|].
  exact (session_completes session emptyWorld H1 H2).
Defined.

End ComboTableFrameSessionFacts.

(** ** What each slot leaves of the list *)

Module ComboTableFrameSlotFacts.
Import ComboModel Std StdFacts ComboTableFrame ComboTableFrameFacts ComboTableFrameView.

(** X8. With the dialog accepted, the add slot appends exactly one entry,
    whatever is selected and whatever the save operation answers: the new
    entry is a handle that was not in the list and holds the new record as
    the dialog left it; the entries that were in the list keep their places
    and every record that existed is unchanged. *)
Theorem add_appends_one (env : Env) (w : World) :
  wf w →
  (ComboDialog_exec env (Combo_create env)).1 = Accepted →
  ∃ w' combo,
    onActionAddCombo env w = Some w'
    ∧ comboList w' = comboList w ++ [combo]
    ∧ size (comboList w') = size (comboList w) + 1
    ∧ (combo ∉ comboList w)
    ∧ heap w' !! combo = Some (ComboDialog_exec env (Combo_create env)).2
    ∧ (∀ other, other ≠ combo → heap w' !! other = heap w !! other)
    ∧ records w' = records w ++ [Some (ComboDialog_exec env (Combo_create env)).2].
Proof.
  intros Hwf Haccepted.
  destruct (onActionAddCombo_accepted env w Haccepted)
    as (w' & Hrun & Hlist & Hheap & _).
  pose proof (fresh_handle_not_in_list w Hwf) as Hfresh.
  exists w', (fresh (dom (heap w))).
  split_and!; try done.
  - rewrite Hlist. unfold size. rewrite length_app. simpl. lia.
  - rewrite Hheap. apply lookup_insert_eq.
  - intros other Hother. rewrite Hheap. by rewrite lookup_insert_ne.
  - unfold records. rewrite Hlist, Hheap, fmap_app. simpl.
    rewrite lookup_insert_eq. f_equal.
    apply list_fmap_ext. intros i other Hother.
    rewrite lookup_insert_ne; [done|]. intros <-.
    apply Hfresh. by eapply list_elem_of_lookup_2.
Qed.

Lemma add_appends_one_witness :
  let env := Samples.sampleEnv [1] Samples.reversed Accepted No false in
  let w := Samples.threeCombos in
  wf w
  ∧ (ComboDialog_exec env (Combo_create env)).1 = Accepted
  ∧ ∃ w' combo,
      onActionAddCombo env w = Some w'
      ∧ comboList w' = comboList w ++ [combo]
      ∧ size (comboList w') = size (comboList w) + 1
      ∧ (combo ∉ comboList w)
      ∧ heap w' !! combo = Some (ComboDialog_exec env (Combo_create env)).2
      ∧ (∀ other, other ≠ combo → heap w' !! other = heap w !! other)
      ∧ records w' = records w ++ [Some (ComboDialog_exec env (Combo_create env)).2].
Proof.
  intros env w.
  assert (wf w) as H1.
  { apply (bool_decide_unpack (wf _)). vm_compute. exact I. }
  assert ((ComboDialog_exec env (Combo_create env)).1 = Accepted) as H2.
  { reflexivity. }
  split; [exact H1|]. split; [exact H2|].
  exact (add_appends_one env w H1 H2).
Defined.

(** X9. The edit slot never adds, removes or reorders an entry, whether its
    dialog is accepted or not and whatever the save operation answers, and
    the only record it can change is the one behind the single selected
    index; without exactly one selected index it changes no record at all. *)
Theorem edit_keeps_list (env : Env) (w : World) :
  wf w →
  ∃ w', onActionEditCombo env w = Some w'
    ∧ comboList w' = comboList w
    ∧ dom (heap w') = dom (heap w)
    ∧ (∀ other, heap w' !! other ≠ heap w !! other →
         ∃ index, getSelectedComboIndexes env w = [index]
                  ∧ comboList w !! Z.to_nat index = Some other).
Proof.
  intros Hwf.
  destruct (decide (length (getSelectedComboIndexes env w) = 1%nat)) as [Hone|Hnot].
  - destruct (getSelectedComboIndexes env w) as [|index [|]] eqn:Hsel; try done.
    destruct (single_selection_record env w index Hwf Hsel)
      as (combo & c & Hr & Hcombo & Hc).
    rewrite (onActionEditCombo_run env w index combo c) by done.
    eexists. split; [done|].
    assert (∀ c', dom (<[combo := c']> (heap w)) = dom (heap w)) as Hdom.
    { intros c'. apply dom_insert_lookup_L. by eexists. }
    case_decide.
    + rewrite saveOrReport_comboList, saveOrReport_heap. simpl.
      split_and!; [done|apply Hdom|].
      intros other Hother. exists index. split; [done|].
      destruct (decide (other = combo)) as [->|Hne]; [done|].
      by rewrite lookup_insert_ne in Hother.
    + simpl. split_and!; [done|apply Hdom|].
      intros other Hother. exists index. split; [done|].
      destruct (decide (other = combo)) as [->|Hne]; [done|].
      by rewrite lookup_insert_ne in Hother.
  - rewrite onActionEditCombo_guard by done. exists w. by split_and!.
Qed.

Lemma edit_keeps_list_witness :
  let env := Samples.sampleEnv [1] Samples.reversed Accepted No false in
  let w := Samples.threeCombos in
  wf w
  ∧ ∃ w', onActionEditCombo env w = Some w'
      ∧ comboList w' = comboList w
      ∧ dom (heap w') = dom (heap w)
      ∧ (∀ other, heap w' !! other ≠ heap w !! other →
           ∃ index, getSelectedComboIndexes env w = [index]
                    ∧ comboList w !! Z.to_nat index = Some other).
Proof.
  intros env w.
  assert (wf w) as H1.
  { apply (bool_decide_unpack (wf _)). vm_compute. exact I. }
  split; [exact H1|].
  exact (edit_keeps_list env w H1).
Defined.

Lemma keepOthers_last {A} (l : list A) (x : A) :
  keepOthers [Z.of_nat (length l)] (l ++ [x]) = l.
Proof.
  unfold keepOthers.
  rewrite (keepOthersFrom_erase_largest 0 (Z.of_nat (length l)) []) by (lia || done).
  rewrite keepOthersFrom_all by constructor.
  replace (Z.to_nat (Z.of_nat (length l) - 0)) with (length l) by lia.
  rewrite (delete_middle l [] x). by rewrite app_nil_r.
Qed.

(** X10. Adding a combo and then deleting the entry at the end of the list
    gives back the list as it was before: the same entries in the same order,
    with every record that existed unchanged. *)
Theorem add_then_delete_restores (env env' : Env) (w : World) (row : Z) :
  (ComboDialog_exec env (Combo_create env)).1 = Accepted →
  selectedRows env' = [row] →
  mapToSource env' row = size (comboList w) →
  question env' (deleteQuestion 1) = Yes →
  ∃ w1 w2,
    onActionAddCombo env w = Some w1
    ∧ onActionDeleteCombo env' w1 = Some w2
    ∧ size (comboList w1) = size (comboList w) + 1
    ∧ comboList w2 = comboList w
    ∧ heap w ⊆ heap w2.
Proof.
  intros Haccepted Hrows Hsource Hyes.
  destruct (onActionAddCombo_accepted env w Haccepted)
    as (w1 & Hadd & Hlist1 & Hheap1 & _).
  assert (size (comboList w1) = size (comboList w) + 1) as Hsize.
  { rewrite Hlist1. unfold size. rewrite length_app. simpl. lia. }
  assert (getSelectedComboIndexes env' w1 = [size (comboList w)]) as Hsel.
  { unfold getSelectedComboIndexes. rewrite selectedIndexesFrom_filter, Hrows.
    rewrite fmap_cons, fmap_nil, Hsource.
    rewrite filter_cons_True by (rewrite Hsize; unfold size; lia). done. }
  assert (getSelectedComboCount env' = 1) as Hcount.
  { unfold getSelectedComboCount. by rewrite Hrows. }
  destruct (onActionDeleteCombo_saved env' w1) as (w2 & Hdelete & Hlist2 & Hheap2 & _).
  { by rewrite Hrows. }
  { by rewrite Hcount. }
  { rewrite Hsel. apply NoDup_singleton. }
  exists w1, w2. split_and!; [done|done|done| |].
  - rewrite Hlist2, Hsel, Hlist1. apply keepOthers_last.
  - rewrite Hheap2, Hheap1. apply insert_subseteq, fresh_handle_unused.
Qed.

Lemma add_then_delete_restores_witness :
  let env := Samples.sampleEnv [] Samples.reversed Accepted No true in
  let env' := Samples.sampleEnv [0] (λ row, 3 - row) Rejected Yes true in
  let w := Samples.threeCombos in
  (ComboDialog_exec env (Combo_create env)).1 = Accepted
  ∧ selectedRows env' = [0]
  ∧ mapToSource env' 0 = size (comboList w)
  ∧ question env' (deleteQuestion 1) = Yes
  ∧ ∃ w1 w2,
      onActionAddCombo env w = Some w1
      ∧ onActionDeleteCombo env' w1 = Some w2
      ∧ size (comboList w1) = size (comboList w) + 1
      ∧ comboList w2 = comboList w
      ∧ heap w ⊆ heap w2.
Proof.
  intros env env' w.
  split; [reflexivity|]. split; [reflexivity|]. split; [reflexivity|].
  split; [reflexivity|].
  apply (add_then_delete_restores env env' w 0); reflexivity.
Defined.

Lemma selectedIndexes_Permutation env env' w :
  selectedRows env ≡ₚ selectedRows env' →
  (∀ row, mapToSource env row = mapToSource env' row) →
  getSelectedComboIndexes env w ≡ₚ getSelectedComboIndexes env' w.
Proof.
  intros Hrows Hmap. unfold getSelectedComboIndexes.
  rewrite !selectedIndexesFrom_filter, Hrows.
  by rewrite (list_fmap_ext (mapToSource env) (mapToSource env') (selectedRows env'))
    by (intros; apply Hmap).
Qed.

(** X11. What the delete slot leaves does not depend on the order in which
    the rows were selected: two selections of the same rows, in any order,
    leave the same list and the same records. *)
Theorem delete_ignores_selection_order (env env' : Env) (w : World) :
  selectedRows env ≡ₚ selectedRows env' →
  (∀ row, mapToSource env row = mapToSource env' row) →
  (∀ text, question env text = question env' text) →
  NoDup (getSelectedComboIndexes env w) →
  ∃ w1 w2,
    onActionDeleteCombo env w = Some w1
    ∧ onActionDeleteCombo env' w = Some w2
    ∧ comboList w1 = comboList w2
    ∧ heap w1 = heap w2.
Proof.
  intros Hrows Hmap Hquestion Hnd.
  pose proof (selectedIndexes_Permutation env env' w Hrows Hmap) as Hperm.
  assert (getSelectedComboCount env' = getSelectedComboCount env) as Hcount.
  { unfold getSelectedComboCount. by rewrite Hrows. }
  destruct (getSelectedComboCount env <? 1) eqn:Hnone.
  - exists w, w. unfold onActionDeleteCombo. cbv zeta. rewrite Hcount, Hnone. done.
  - destruct (decide (question env (deleteQuestion (getSelectedComboCount env)) = Yes))
      as [Hyes|Hno].
    + pose proof (ComboTableFrameSessionFacts.selectedRows_nonempty env Hnone) as Hsel.
      destruct (onActionDeleteCombo_saved env w Hsel Hyes Hnd)
        as (w1 & Hrun1 & Hlist1 & Hheap1 & _).
      destruct (onActionDeleteCombo_saved env' w) as (w2 & Hrun2 & Hlist2 & Hheap2 & _).
      { intros Hnil. apply Hsel. apply Permutation_nil_r. by rewrite <- Hnil. }
      { by rewrite Hcount, <- Hquestion. }
      { by rewrite <- Hperm. }
      exists w1, w2. split_and!; [done|done| |congruence].
      rewrite Hlist1, Hlist2. by apply keepOthersFrom_Permutation.
    + eexists _, _. split; [by apply onActionDeleteCombo_declined|].
      split; [apply onActionDeleteCombo_declined; by rewrite Hcount, <- Hquestion|].
      rewrite Hcount, Hnone. done.
Qed.

Lemma delete_ignores_selection_order_witness :
  let env := Samples.sampleEnv [2; 0] Samples.reversed Accepted Yes true in
  let env' := Samples.sampleEnv [0; 2] Samples.reversed Accepted Yes true in
  let w := Samples.threeCombos in
  selectedRows env ≡ₚ selectedRows env'
  ∧ NoDup (getSelectedComboIndexes env w)
  ∧ ∃ w1 w2,
      onActionDeleteCombo env w = Some w1
      ∧ onActionDeleteCombo env' w = Some w2
      ∧ comboList w1 = comboList w2
      ∧ heap w1 = heap w2.
Proof.
  intros env env' w.
  assert (selectedRows env ≡ₚ selectedRows env') as H1.
  { apply Permutation_swap. }
  assert (NoDup (getSelectedComboIndexes env w)) as H2.
  { apply (bool_decide_unpack (NoDup _)). vm_compute. exact I. }
  split; [exact H1|]. split; [exact H2|].
  apply (delete_ignores_selection_order env env' w H1); [reflexivity|reflexivity|exact H2].
Defined.

Lemma keepOthersFrom_none {A} position indexes (l : list A) :
  (∀ index, position ≤ index < position + Z.of_nat (length l) → index ∈ indexes) →
  keepOthersFrom position indexes l = [].
Proof.
  revert position. induction l as [|x l IH]; intros position Hall; simpl; [done|].
  rewrite bool_decide_eq_true_2 by (apply Hall; rewrite length_cons; lia).
  apply IH. intros index Hindex. apply Hall. rewrite length_cons. lia.
Qed.

(** X12. When every index of the list is among the selected indexes and the
    question is answered with Yes, the delete slot leaves the list empty. *)
Theorem delete_all_selected_empties (env : Env) (w : World) :
  selectedRows env ≠ [] →
  question env (deleteQuestion (getSelectedComboCount env)) = Yes →
  NoDup (getSelectedComboIndexes env w) →
  (∀ index, 0 ≤ index < size (comboList w) → index ∈ getSelectedComboIndexes env w) →
  ∃ w', onActionDeleteCombo env w = Some w'
    ∧ comboList w' = []
    ∧ size (comboList w') = 0
    ∧ heap w' = heap w.
Proof.
  intros Hsel Hyes Hnd Hall.
  destruct (onActionDeleteCombo_saved env w Hsel Hyes Hnd)
    as (w' & Hrun & Hlist & Hheap & _).
  assert (comboList w' = []) as Hempty.
  { rewrite Hlist. unfold keepOthers. apply keepOthersFrom_none.
    intros index Hindex. apply Hall. unfold size. lia. }
  exists w'. split_and!; [done|done| |done]. by rewrite Hempty.
Qed.

Lemma delete_all_selected_empties_witness :
  let env := Samples.sampleEnv [1; 2; 0] Samples.reversed Accepted Yes true in
  let w := Samples.threeCombos in
  selectedRows env ≠ []
  ∧ question env (deleteQuestion (getSelectedComboCount env)) = Yes
  ∧ NoDup (getSelectedComboIndexes env w)
  ∧ (∀ index, 0 ≤ index < size (comboList w) → index ∈ getSelectedComboIndexes env w)
  ∧ ∃ w', onActionDeleteCombo env w = Some w'
      ∧ comboList w' = []
      ∧ size (comboList w') = 0
      ∧ heap w' = heap w.
Proof.
  intros env w.
  assert (selectedRows env ≠ []) as H1 by discriminate.
  assert (question env (deleteQuestion (getSelectedComboCount env)) = Yes) as H2
    by reflexivity.
  assert (NoDup (getSelectedComboIndexes env w)) as H3.
  { apply (bool_decide_unpack (NoDup _)). vm_compute. exact I. }
  assert (∀ index, 0 ≤ index < size (comboList w) →
                   index ∈ getSelectedComboIndexes env w) as H4.
  { intros index Hindex.
    change (getSelectedComboIndexes env w) with [1; 0; 2].
    change (size (comboList w)) with 3 in Hindex.
    assert (index = 0 ∨ index = 1 ∨ index = 2) as [->|[->| ->]] by lia;
      apply (bool_decide_unpack (_ ∈ _)); vm_compute; exact I. }
  split; [exact H1|]. split; [exact H2|]. split; [exact H3|]. split; [exact H4|].
  exact (delete_all_selected_empties env w H1 H2 H3 H4).
Defined.

End ComboTableFrameSlotFacts.

(** ** The search filter *)

Module SearchFilterFacts.
Import ComboTableFrameView.

Section Trimmed.

Context {QChar : Type} (isSpace : QChar → bool).

Lemma dropSpaces_split (s : list QChar) :
  ∃ spaces, s = spaces ++ dropSpaces isSpace s ∧ Forall (λ c, isSpace c = true) spaces.
Proof.
  induction s as [|c s (spaces & Hs & Hspaces)]; simpl.
  - by exists [].
  - destruct (isSpace c) eqn:Hc.
    + exists (c :: spaces). split; [simpl; congruence|by constructor].
    + by exists [].
Qed.

Lemma dropSpaces_head (s : list QChar) c :
  head (dropSpaces isSpace s) = Some c → isSpace c = false.
Proof.
  induction s as [|c' s IH]; simpl; [done|].
  destruct (isSpace c') eqn:Hc'; [done|]. simpl. congruence.
Qed.

Lemma dropSpaces_unchanged (s : list QChar) :
  (∀ c, head s = Some c → isSpace c = false) → dropSpaces isSpace s = s.
Proof.
  destruct s as [|c s]; simpl; [done|]. intros Hhead.
  by rewrite (Hhead c eq_refl).
Qed.

Lemma dropSpaces_all (s : list QChar) :
  Forall (λ c, isSpace c = true) s → dropSpaces isSpace s = [].
Proof. induction 1 as [|c s Hc _ IH]; simpl; [done|]. by rewrite Hc. Qed.

Lemma trimmed_head (s : list QChar) c :
  head (trimmed isSpace s) = Some c → isSpace c = false.
Proof.
  unfold trimmed. rewrite head_reverse.
  destruct (dropSpaces_split (reverse (dropSpaces isSpace s))) as (spaces & Hs & _).
  intros Hlast.
  assert (last (reverse (dropSpaces isSpace s)) = Some c) as Hfirst.
  { rewrite Hs, last_app. by rewrite Hlast. }
  rewrite last_reverse in Hfirst. by eapply dropSpaces_head.
Qed.

Lemma trimmed_last (s : list QChar) c :
  last (trimmed isSpace s) = Some c → isSpace c = false.
Proof. unfold trimmed. rewrite last_reverse. apply dropSpaces_head. Qed.

(** X13. The filter that [onSearchFilterChanged] hands to the proxy is the
    text without the whitespace around it: the text is some whitespace, the
    filter, and some whitespace again, and the filter neither starts nor
    ends with whitespace. So a text of whitespace only gives the empty
    filter, and handing the filter itself to the slot gives the same
    filter. *)
Theorem search_filter_is_trimmed (text : list QChar) :
  (∃ before after,
     text = before ++ onSearchFilterChanged isSpace text ++ after
     ∧ Forall (λ c, isSpace c = true) before
     ∧ Forall (λ c, isSpace c = true) after)
  ∧ (∀ c, head (onSearchFilterChanged isSpace text) = Some c → isSpace c = false)
  ∧ (∀ c, last (onSearchFilterChanged isSpace text) = Some c → isSpace c = false)
  ∧ (Forall (λ c, isSpace c = true) text → onSearchFilterChanged isSpace text = [])
  ∧ onSearchFilterChanged isSpace (onSearchFilterChanged isSpace text)
    = onSearchFilterChanged isSpace text.
Proof.
  unfold onSearchFilterChanged. cbv zeta. split_and!.
  - destruct (dropSpaces_split text) as (before & Htext & Hbefore).
    destruct (dropSpaces_split (reverse (dropSpaces isSpace text)))
      as (after & Hrest & Hafter).
    exists before, (reverse after). split_and!; [|done|by apply Forall_reverse].
    unfold trimmed. rewrite <- reverse_app, <- Hrest, reverse_involutive. done.
  - apply trimmed_head.
  - apply trimmed_last.
  - intros Hall. unfold trimmed. rewrite (dropSpaces_all text Hall). reflexivity.
  - unfold trimmed at 1.
    rewrite (dropSpaces_unchanged (trimmed isSpace text)) by apply trimmed_head.
    rewrite dropSpaces_unchanged, reverse_involutive; [done|].
    intros c. rewrite head_reverse. apply trimmed_last.
Qed.

End Trimmed.

Example search_filter_sample :
  onSearchFilterChanged asciiIsSpace
    (String.list_ascii_of_string "  best regards ")
  = String.list_ascii_of_string "best regards".
Proof. reflexivity. Qed.

End SearchFilterFacts.

(** ** Setting and reading the preferences *)

Module PreferencesManagerMoreFacts.
Import PreferencesManager PreferencesManagerFacts.

(** X14. The geometry that [setMainWindowGeometry] stores is what
    [mainWindowGeometry] returns afterwards, byte for byte, whatever the
    store held before; no other key of the store is touched. *)
Theorem geometry_round_trip (array : string) (settings : gmap string QVariant) :
  (mainWindowGeometry (setMainWindowGeometry array settings).2).1 = array
  ∧ (∀ key, key ≠ kKeyGeometry →
       (setMainWindowGeometry array settings).2 !! key = settings !! key).
Proof.
  split.
  - rewrite mainWindowGeometry_reads. unfold setMainWindowGeometry, setValue. simpl.
    by rewrite lookup_insert_eq.
  - intros key Hkey. unfold setMainWindowGeometry, setValue. simpl.
    by rewrite lookup_insert_ne.
Qed.

(** X15. Each boolean preference reads back as it was set: after
    [setAutoStartAtLogin] the getter returns the value given, and so for
    [setPlaySoundOnCombo], whatever the store held before. *)
Theorem boolean_preferences_round_trip (v : bool) (settings : gmap string QVariant) :
  (getAutoStartAtLogin (setAutoStartAtLogin v settings).2).1 = v
  ∧ (getPlaySoundOnCombo (setPlaySoundOnCombo v settings).2).1 = v.
Proof.
  rewrite getAutoStartAtLogin_reads, getPlaySoundOnCombo_reads.
  unfold setAutoStartAtLogin, setPlaySoundOnCombo, setValue. simpl.
  by rewrite !lookup_insert_eq.
Qed.

(** X16. The preferences are independent: a setter changes what its own
    getter returns and nothing else. After any of the three setters the
    other three getters answer as before. *)
Theorem setters_are_independent (sep : ascii) (v : bool) (array : string)
    (settings : gmap string QVariant) :
  let afterStart := (setAutoStartAtLogin v settings).2 in
  let afterSound := (setPlaySoundOnCombo v settings).2 in
  let afterGeometry := (setMainWindowGeometry array settings).2 in
  ((getPlaySoundOnCombo afterStart).1 = (getPlaySoundOnCombo settings).1
   ∧ (mainWindowGeometry afterStart).1 = (mainWindowGeometry settings).1
   ∧ (getInstalledApplicationPath sep afterStart).1
     = (getInstalledApplicationPath sep settings).1)
  ∧ ((getAutoStartAtLogin afterSound).1 = (getAutoStartAtLogin settings).1
     ∧ (mainWindowGeometry afterSound).1 = (mainWindowGeometry settings).1
     ∧ (getInstalledApplicationPath sep afterSound).1
       = (getInstalledApplicationPath sep settings).1)
  ∧ ((getAutoStartAtLogin afterGeometry).1 = (getAutoStartAtLogin settings).1
     ∧ (getPlaySoundOnCombo afterGeometry).1 = (getPlaySoundOnCombo settings).1
     ∧ (getInstalledApplicationPath sep afterGeometry).1
       = (getInstalledApplicationPath sep settings).1).
Proof.
  intros afterStart afterSound afterGeometry.
  rewrite !getAutoStartAtLogin_reads, !getPlaySoundOnCombo_reads,
    !mainWindowGeometry_reads, !getInstalledApplicationPath_reads.
  unfold afterStart, afterSound, afterGeometry,
    setAutoStartAtLogin, setPlaySoundOnCombo, setMainWindowGeometry, setValue.
  simpl. by rewrite !lookup_insert_ne.
Qed.

(** X17. [reset] forgets what the boolean setters wrote before it and is
    idempotent: the store after a setter and [reset] is the store after
    [reset] alone, and a second [reset] changes nothing. *)
Theorem reset_overrides_setters (v : bool) (settings : gmap string QVariant) :
  (reset (setAutoStartAtLogin v settings).2).2 = (reset settings).2
  ∧ (reset (setPlaySoundOnCombo v settings).2).2 = (reset settings).2
  ∧ (reset (reset settings).2).2 = (reset settings).2.
Proof.
  rewrite !reset_writes. unfold setAutoStartAtLogin, setPlaySoundOnCombo, setValue.
  simpl.
  split_and!; apply map_eq; intros key; rewrite !lookup_insert;
    repeat case_decide; congruence.
Qed.

Lemma fromNativeSeparators_unchanged sep pathName :
  sep ∉ String.list_ascii_of_string pathName →
  fromNativeSeparators sep pathName = pathName.
Proof.
  induction pathName as [|c rest IH]; simpl; [done|].
  intros Hnot. rewrite not_elem_of_cons in Hnot. destruct Hnot as [Hc Hrest].
  rewrite bool_decide_eq_false_2 by congruence. by rewrite IH.
Qed.

Lemma fromNativeSeparators_idempotent sep pathName :
  fromNativeSeparators sep (fromNativeSeparators sep pathName)
  = fromNativeSeparators sep pathName.
Proof.
  induction pathName as [|c rest IH]; simpl; [done|]. rewrite IH. f_equal.
  destruct (decide (c = sep)) as [->|Hne].
  - rewrite (bool_decide_eq_true_2 (sep = sep)) by done. by case_bool_decide.
  - by rewrite !(bool_decide_eq_false_2 (c = sep)) by done.
Qed.

(** X18. The path that [getInstalledApplicationPath] returns is in its final
    form: it has as many characters as the stored value, normalizing it
    again changes nothing, and a stored path without a native separator is
    returned as it is. *)
Theorem installed_path_is_stable (sep : ascii) (settings : gmap string QVariant)
    (path : string) :
  settings !! kKeyAppExePath = Some (VString path) →
  String.length (getInstalledApplicationPath sep settings).1 = String.length path
  ∧ fromNativeSeparators sep (getInstalledApplicationPath sep settings).1
    = (getInstalledApplicationPath sep settings).1
  ∧ (sep ∉ String.list_ascii_of_string path →
     (getInstalledApplicationPath sep settings).1 = path).
Proof.
  intros Hpath. rewrite getInstalledApplicationPath_reads, Hpath. simpl.
  split_and!.
  - clear Hpath. induction path as [|c rest IH]; simpl; [done|]. by rewrite IH.
  - apply fromNativeSeparators_idempotent.
  - apply fromNativeSeparators_unchanged.
Qed.

Lemma installed_path_is_stable_witness :
  installedSettings !! kKeyAppExePath
    = Some (VString "C:\Program Files\Beeftext\Beeftext.exe")
  ∧ String.length (getInstalledApplicationPath "\" installedSettings).1
    = String.length "C:\Program Files\Beeftext\Beeftext.exe"
  ∧ fromNativeSeparators "\" (getInstalledApplicationPath "\" installedSettings).1
    = (getInstalledApplicationPath "\" installedSettings).1
  ∧ ("\"%char ∉ String.list_ascii_of_string "C:\Program Files\Beeftext\Beeftext.exe" →
     (getInstalledApplicationPath "\" installedSettings).1
     = "C:\Program Files\Beeftext\Beeftext.exe").
Proof.
  split; [reflexivity|].
  apply (installed_path_is_stable "\" installedSettings). reflexivity.
Defined.

End PreferencesManagerMoreFacts.
